(** * Experiment queues of [dvc/repo/experiments/queue/local.py]

    A shallow embedding of [LocalCeleryQueue] (the broker-backed queue) and
    [WorkspaceQueue] (the synchronous queue).  The collaborators the queues
    talk to (the Celery broker and result backend, the process manager, the
    experiment stash, the executor, the info-record store) are a record of
    observable state, [World]; every call that reaches a collaborator is
    recorded in the world's [trace], so that the order of calls can be
    stated.  Python exceptions are the [Raise] outcome of a state-and-error
    monad; generators are suspended loops that are only advanced when a
    consumer pulls from them. *)

From Stdlib Require Import String ZArith List.
From stdpp Require Import base option list strings gmap fin_maps.

Local Open Scope string_scope.
Local Open Scope list_scope.

(** ** Data model *)

(** Modelled from the spec: [QueueEntry] is declared in [queue/base.py].
    An entry has the workspace root, the repository root, the queue's
    reference name, the stash revision (its key), the baseline revision, an
    optional branch, an optional name and the head revision; these are the
    eight positional arguments that [WorkspaceQueue.get] passes. *)
Record QueueEntry : Type := mkQueueEntry {
  dvc_root : string;
  scm_root : string;
  stash_ref : string;
  stash_rev : string;
  baseline_rev : string;
  branch : option string;
  name : option string;
  head_rev : option string;
}.

#[global] Instance QueueEntry_eq_dec : EqDecision QueueEntry.
Proof. solve_decision. Defined.

(** Modelled from the spec: [ExpStashEntry] is declared in [stash.py]; a
    stash record, with the fields that [WorkspaceQueue.get] reads. *)
Record ExpStashEntry : Type := mkExpStashEntry {
  se_baseline_rev : string;
  se_branch : option string;
  se_name : option string;
  se_head_rev : option string;
}.

#[global] Instance ExpStashEntry_eq_dec : EqDecision ExpStashEntry.
Proof. solve_decision. Defined.

(** Modelled from the spec: [ExecutorResult] is declared in
    [executor/base.py]; the content hash, the produced reference and the
    force flag.  [ref_info] is an object, true in a condition whenever it is
    not [None]. *)
Record ExecutorResult : Type := mkExecutorResult {
  exp_hash : option string;
  ref_info : option string;
  force : bool;
}.

#[global] Instance ExecutorResult_eq_dec : EqDecision ExecutorResult.
Proof. solve_decision. Defined.

(** Modelled from the spec: [ExecutorInfo] is declared in
    [executor/base.py]; the persisted info record, with its collected flag
    and its result ([None] is Python's [None]). *)
Record ExecutorInfo : Type := mkExecutorInfo {
  collected : bool;
  result : option ExecutorResult;
}.

#[global] Instance ExecutorInfo_eq_dec : EqDecision ExecutorInfo.
Proof. solve_decision. Defined.

(** A Python float, as mantissa and binary exponent.  The queue never
    computes with a timeout, it only hands it to the result backend. *)
Record pyfloat : Type := mkFloat { mantissa : Z; exponent : Z }.

#[global] Instance pyfloat_eq_dec : EqDecision pyfloat.
Proof. solve_decision. Defined.

(** A kombu [Message]: its headers, its delivery tag and the decoded body
    ([args], [kwargs]).  The body carries entries in their dictionary
    form, which [from_dict] below reads back. *)
Record Message : Type := mkMessage {
  headers : gmap string string;
  delivery_tag : string;
  body_args : list QueueEntry;
  body_kwargs : gmap string QueueEntry;
}.

#[global] Instance Message_eq_dec : EqDecision Message.
Proof. solve_decision. Defined.

(** Modelled from the spec: [QueueEntry.from_dict] and [asdict] are in
    [queue/base.py]; the round trip through the dictionary form is
    lossless, so the dictionary form of an entry is taken to be the entry
    itself. *)
Definition from_dict (entry_dict : QueueEntry) : QueueEntry := entry_dict.

(** [run_exp.name], the registered name of this system's task. *)
Definition run_exp_name : string := "dvc.repo.experiments.queue.tasks.run_exp".

Abbreviation _MessageEntry := (Message * QueueEntry)%type.
Abbreviation _TaskEntry := (string * QueueEntry)%type.
Abbreviation QueueDoneResult := (QueueEntry * option ExecutorResult)%type.

(** The executor handed out by [setup_executor]: the entry it is bound to,
    and whether it is a [WorkspaceExecutor]. *)
Record Executor : Type := mkExecutor {
  executor_entry : QueueEntry;
  is_workspace_executor : bool;
}.

Abbreviation QueueGetResult := (QueueEntry * Executor)%type.

(** ** Exceptions *)

Inductive Exn : Type :=
| DvcException (msg : string)
| ExpQueueEmptyError (msg : string)
| UnresolvedQueueExpNamesError (names : list string)
| CheckpointKilledError
| FileNotFoundError
| CeleryTimeout
| IndexError
| KeyError (key : string)
| ProcessLookupError
| AssertionError
| KeyboardInterrupt
| OtherError (what : string).

#[global] Instance Exn_eq_dec : EqDecision Exn.
Proof. solve_decision. Defined.

(** [isinstance(e, DvcException)]: as in dvc's exception modules, the
    queue errors and the checkpoint error derive from [DvcException]. *)
Definition is_DvcException (e : Exn) : bool :=
  match e with
  | DvcException _ | ExpQueueEmptyError _
  | UnresolvedQueueExpNamesError _ | CheckpointKilledError => true
  | _ => false
  end.

(** [isinstance(e, Exception)]: everything but [KeyboardInterrupt]. *)
Definition is_Exception (e : Exn) : bool :=
  match e with
  | KeyboardInterrupt => false
  | _ => true
  end.

Inductive Res (A : Type) : Type :=
| Ret (a : A)
| Raise (e : Exn).
Arguments Ret {A} a.
Arguments Raise {A} e.

(** ** The collaborators *)

(** What [AsyncResult(task_id).get(timeout=...)] does: the task reaches a
    terminal state in time, leaving the info-record store as the worker
    wrote it; or the wait times out; or the task's own error is re-raised. *)
Inductive WaitOutcome : Type :=
| WaitDone (store : gmap string ExecutorInfo)
| WaitTimeout
| WaitRaised (e : Exn).

(** What one [executor.reproduce(...)] call does: its outcome, and the value
    of the [EXEC_BRANCH] reference it leaves behind. *)
Record ExecRun : Type := mkExecRun {
  run_outcome : Res ExecutorResult;
  run_exec_branch : option string;
}.

Inductive Event : Type :=
| EvLoadInfo (rev : string)
| EvIterQueued
| EvIterProcessed
| EvReject (tag : string)
| EvTaskGet (task_id : string) (timeout : option pyfloat)
| EvStashRemove (revs : gset string)
| EvProcKill (rev : string)
| EvProcFollow (rev : string) (encoding : option string)
| EvSetupExecutor (rev : string)
| EvExecReproduce (rev : string) (infofile : string) (log_errors : bool)
| EvExecCleanup (rev : string)
| EvUiWrite (text : string).

#[global] Instance Event_eq_dec : EqDecision Event.
Proof. solve_decision. Defined.

(** The behaviour of the collaborators that the queue cannot change. *)
Record Env : Type := mkEnv {
  root_dir : string;                 (* self.repo.root_dir *)
  scm_root_dir : string;             (* self.scm.root_dir *)
  queue_ref : string;                (* self.ref *)
  pid_dir : string;                  (* where info records are kept *)
  backend_get : string -> option pyfloat -> WaitOutcome;
  reject_exn : string -> option Exn; (* celery.reject(tag) raising *)
  kill_exn : string -> option Exn;   (* proc.kill(rev) raising *)
  proc_follow : string -> list string * option Exn;
  executor_run : string -> ExecRun;
  executor_is_workspace : bool;      (* is executor_cls WorkspaceExecutor *)
}.

(** The observable state of the collaborators. *)
Record World : Type := mkWorld {
  env : Env;
  infofiles : gmap string ExecutorInfo;    (* info records, by revision *)
  queued : list Message;                   (* celery.iter_queued() *)
  processed : list Message;                (* celery.iter_processed() *)
  ready : gset string;                     (* task ids in a terminal state *)
  stash_revs : list (string * ExpStashEntry);  (* stash.stash_revs, in order *)
  exec_branch : option string;             (* scm.get_ref(EXEC_BRANCH) *)
  procs : gmap string string;              (* proc[rev].stdout *)
  files : gmap string string;              (* contents of log files *)
  trace : list Event;
}.

Definition set_infofiles (x : gmap string ExecutorInfo) (w : World) : World :=
  mkWorld (env w) x (queued w) (processed w) (ready w) (stash_revs w)
          (exec_branch w) (procs w) (files w) (trace w).
Definition set_queued (x : list Message) (w : World) : World :=
  mkWorld (env w) (infofiles w) x (processed w) (ready w) (stash_revs w)
          (exec_branch w) (procs w) (files w) (trace w).
Definition set_ready (x : gset string) (w : World) : World :=
  mkWorld (env w) (infofiles w) (queued w) (processed w) x (stash_revs w)
          (exec_branch w) (procs w) (files w) (trace w).
Definition set_stash_revs (x : list (string * ExpStashEntry)) (w : World) : World :=
  mkWorld (env w) (infofiles w) (queued w) (processed w) (ready w) x
          (exec_branch w) (procs w) (files w) (trace w).
Definition set_exec_branch (x : option string) (w : World) : World :=
  mkWorld (env w) (infofiles w) (queued w) (processed w) (ready w)
          (stash_revs w) x (procs w) (files w) (trace w).
Definition set_trace (x : list Event) (w : World) : World :=
  mkWorld (env w) (infofiles w) (queued w) (processed w) (ready w)
          (stash_revs w) (exec_branch w) (procs w) (files w) x.

(** Record the calls [evs], in order, after those already made. *)
Definition log_all (evs : list Event) (w : World) : World :=
  set_trace (trace w ++ evs) w.
Definition log (ev : Event) (w : World) : World := log_all [ev] w.

(** ** The monad of queue operations *)

Definition M (A : Type) : Type := World -> Res A * World.

Definition ret {A} (a : A) : M A := fun w => (Ret a, w).
Definition raise {A} (e : Exn) : M A := fun w => (Raise e, w).
Definition bind {A B} (c : M A) (k : A -> M B) : M B :=
  fun w => match c w with
           | (Ret a, w1) => k a w1
           | (Raise e, w1) => (Raise e, w1)
           end.

Declare Scope queue_scope.
Delimit Scope queue_scope with queue.
Notation "x <- c ;; k" := (bind c (fun x => k))
  (at level 100, c at next level, right associativity) : queue_scope.
Notation "c ;; k" := (bind c (fun _ => k))
  (at level 100, right associativity) : queue_scope.
Local Open Scope queue_scope.

(** [try: body  except E: handler], where [handler e] is [None] when no
    [except] clause matches [e]. *)
Definition try_except {A} (body : M A) (handler : Exn -> option (M A)) : M A :=
  fun w => match body w with
           | (Ret a, w1) => (Ret a, w1)
           | (Raise e, w1) =>
               match handler e with
               | Some h => h w1
               | None => (Raise e, w1)
               end
           end.

(** [try: body  finally: fin]: [fin] runs on every exit of [body]; an
    exception of [fin] replaces the outcome of [body]. *)
Definition try_finally {A} (body : M A) (fin : M unit) : M A :=
  fun w => match body w with
           | (r, w1) =>
               match fin w1 with
               | (Ret _, w2) => (r, w2)
               | (Raise e, w2) => (Raise e, w2)
               end
           end.

Definition emit (ev : Event) : M unit := fun w => (Ret tt, log ev w).

(** A computation that does not touch the world. *)
Definition lift {A} (r : Res A) : M A := fun w => (r, w).

(** Python truthiness of an [Optional[str]]: [None] and the empty string
    are false. *)
Definition truthy (o : option string) : bool :=
  match o with
  | Some s => negb (String.eqb s "")
  | None => false
  end.

(** ** Generators

    A Python generator of this module is a loop over a source that is
    opened on the first pull; one turn of the loop yields at most one item.
    Nothing of the generator runs until a consumer pulls, and a consumer
    that stops early leaves the rest of the source untouched. *)
Record Gen (B : Type) : Type := mkGen {
  gen_src : Type;
  gen_open : M (list gen_src);
  gen_step : gen_src -> M (option B);
}.
Arguments mkGen {B} gen_src gen_open gen_step.
Arguments gen_src {B} g.
Arguments gen_open {B} g.
Arguments gen_step {B} g a.

(** [for x in l: body], where [body] returning [Some v] is a [return v]
    that leaves the loop. *)
Fixpoint for_list {A R} (l : list A) (body : A -> M (option R)) : M (option R) :=
  match l with
  | [] => ret None
  | x :: l' =>
      r <- body x ;;
      match r with
      | Some v => ret (Some v)
      | None => for_list l' body
      end
  end.

(** One turn of the generator's loop followed by the consumer's body. *)
Definition pull {B R} (g : Gen B) (body : B -> M (option R))
    (a : gen_src g) : M (option R) :=
  ob <- gen_step g a ;;
  match ob with
  | Some b => body b
  | None => ret None
  end.

(** [for b in g: body]. *)
Definition for_gen {B R} (g : Gen B) (body : B -> M (option R)) : M (option R) :=
  l <- gen_open g ;; for_list l (pull g body).

(** A generator whose loop is [for b in g: step b]. *)
Definition gen_then {B C} (g : Gen B) (step : B -> M (option C)) : Gen C :=
  mkGen (gen_src g) (gen_open g) (pull g step).

(** [for b in g: yield f b]. *)
Definition gen_map {B C} (f : B -> C) (g : Gen B) : Gen C :=
  gen_then g (fun b => ret (Some (f b))).

(** Running a generator to its end: the items it yields and, when it stops
    with an exception, that exception. *)
Fixpoint collect_list {A B} (step : A -> M (option B)) (l : list A) (w : World)
    : (list B * option Exn) * World :=
  match l with
  | [] => (([], None), w)
  | a :: l' =>
      match step a w with
      | (Raise e, w1) => (([], Some e), w1)
      | (Ret None, w1) => collect_list step l' w1
      | (Ret (Some b), w1) =>
          let '((bs, err), w2) := collect_list step l' w1 in
          ((b :: bs, err), w2)
      end
  end.

Definition collect {B} (g : Gen B) (w : World) : (list B * option Exn) * World :=
  match gen_open g w with
  | (Raise e, w1) => (([], Some e), w1)
  | (Ret l, w1) => collect_list (gen_step g) l w1
  end.

Definition yielded {B} (g : Gen B) (w : World) : list B := (collect g w).1.1.
Definition gen_error {B} (g : Gen B) (w : World) : option Exn := (collect g w).1.2.

(** ** Calls to the collaborators *)

Definition celery_iter_queued : M (list Message) :=
  fun w => (Ret (queued w), log EvIterQueued w).

Definition celery_iter_processed : M (list Message) :=
  fun w => (Ret (processed w), log EvIterProcessed w).

(** [celery.reject(tag)]: the message leaves the broker's queue. *)
Definition celery_reject (tag : string) : M unit :=
  fun w =>
    match reject_exn (env w) tag with
    | Some e => (Raise e, log (EvReject tag) w)
    | None =>
        (Ret tt,
         log (EvReject tag)
             (set_queued (filter (fun m => delivery_tag m <> tag) (queued w)) w))
    end.

(** [AsyncResult(task_id).ready()]. *)
Definition async_ready (task_id : string) : M bool :=
  fun w => (Ret (bool_decide (task_id ∈ ready w)), w).

(** [AsyncResult(task_id).get(timeout=timeout)]. *)
Definition async_get (task_id : string) (timeout : option pyfloat) : M unit :=
  fun w =>
    match backend_get (env w) task_id timeout with
    | WaitDone store =>
        (Ret tt,
         log (EvTaskGet task_id timeout)
             (set_ready ({[task_id]} ∪ ready w) (set_infofiles store w)))
    | WaitTimeout => (Raise CeleryTimeout, log (EvTaskGet task_id timeout) w)
    | WaitRaised e => (Raise e, log (EvTaskGet task_id timeout) w)
    end.

(** [self.proc.kill(rev)]. *)
Definition proc_kill (rev : string) : M unit :=
  fun w =>
    match kill_exn (env w) rev with
    | Some e => (Raise e, log (EvProcKill rev) w)
    | None => (Ret tt, log (EvProcKill rev) w)
    end.

(** [get_result]'s local [_load_info]:
    [ExecutorInfo.load_json(self.get_infofile_path(rev))]; the store is
    keyed by revision. *)
Definition _load_info (rev : string) : M ExecutorInfo :=
  fun w =>
    match infofiles w !! rev with
    | Some info => (Ret info, log (EvLoadInfo rev) w)
    | None => (Raise FileNotFoundError, log (EvLoadInfo rev) w)
    end.

(** Modelled from the spec: [BaseStashQueue._remove_revs] is in
    [queue/base.py]; the stash collaborator's [remove(revision set)] drops
    the records of the given revisions. *)
Definition super_remove_revs (revs : gmap string ExpStashEntry) : M unit :=
  fun w =>
    (Ret tt,
     log (EvStashRemove (dom revs))
         (set_stash_revs (filter (fun p => p.1 ∉ dom revs) (stash_revs w)) w)).

(** ** [LocalCeleryQueue] *)

(** [args, kwargs, _embed = msg.decode()] and
    [kwargs.get("entry_dict", args[0])]: the default [args[0]] is evaluated
    before the lookup, so an empty [args] is an [IndexError]. *)
Definition decode_entry (msg : Message) : Res QueueEntry :=
  match body_args msg with
  | [] => Raise IndexError
  | a0 :: _ => Ret (from_dict (default a0 (body_kwargs msg !! "entry_dict")))
  end.

(** One turn of the loop shared by [_iter_queued] and [_iter_processed]. *)
Definition message_step (msg : Message) : M (option _MessageEntry) :=
  if decide (headers msg !! "task" <> Some run_exp_name) then ret None
  else entry <- lift (decode_entry msg) ;; ret (Some (msg, entry)).

(** Lines 163-169. *)
Definition _iter_queued : Gen _MessageEntry :=
  mkGen Message celery_iter_queued message_step.

(** Lines 159-161. *)
Definition iter_queued : Gen QueueEntry := gen_map snd _iter_queued.

(** Lines 171-177. *)
Definition _iter_processed : Gen _MessageEntry :=
  mkGen Message celery_iter_processed message_step.

(** [task_id = msg.headers["id"]]. *)
Definition header_id (msg : Message) : Res string :=
  match headers msg !! "id" with
  | Some task_id => Ret task_id
  | None => Raise (KeyError "id")
  end.

(** Lines 179-186: the delivered tasks that are not ready. *)
Definition _iter_active_tasks : Gen _TaskEntry :=
  gen_then _iter_processed (fun me =>
    task_id <- lift (header_id me.1) ;;
    is_ready <- async_ready task_id ;;
    if negb is_ready then ret (Some (task_id, me.2)) else ret None).

(** Lines 188-195: the delivered tasks that are ready. *)
Definition _iter_done_tasks : Gen _TaskEntry :=
  gen_then _iter_processed (fun me =>
    task_id <- lift (header_id me.1) ;;
    is_ready <- async_ready task_id ;;
    if is_ready then ret (Some (task_id, me.2)) else ret None).

(** Lines 197-199. *)
Definition iter_active : Gen QueueEntry := gen_map snd _iter_active_tasks.

(** Lines 218-224 of [get_result], the fast path: [Some res] stands for
    [return executor_info.result], [None] for falling through. *)
Definition load_collected (rev : string) : M (option (option ExecutorResult)) :=
  try_except
    (executor_info <- _load_info rev ;;
     if collected executor_info
     then ret (Some (result executor_info))
     else ret None)
    (fun e => match e with
              | FileNotFoundError => Some (ret None)
              | _ => None
              end).

(** Lines 231-240 of [get_result]: what is done for the active task of the
    entry's revision. *)
Definition wait_for_task (task_id rev : string) (timeout : option pyfloat)
    : M (option ExecutorResult) :=
  try_except (async_get task_id timeout)
    (fun e => match e with
              | CeleryTimeout =>
                  Some (raise (DvcException
                                 "Timed out waiting for exp to finish."))
              | _ => None
              end) ;;
  executor_info <- _load_info rev ;;
  ret (result executor_info).

(** Lines 226-241 of [get_result]: the two loops over the broker's views. *)
Definition scan_broker (entry : QueueEntry) (timeout : option pyfloat)
    : M (option ExecutorResult) :=
  for_gen iter_queued (fun queue_entry =>
    if decide (stash_rev entry = stash_rev queue_entry)
    then raise (DvcException "Experiment has not been started.")
    else ret (@None unit)) ;;
  found <- for_gen _iter_active_tasks (fun te =>
    if decide (stash_rev entry = stash_rev te.2)
    then res <- wait_for_task te.1 (stash_rev entry) timeout ;; ret (Some res)
    else ret None) ;;
  match found with
  | Some res => ret res
  | None => raise (DvcException "Invalid experiment.")
  end.

(** Lines 208-241. *)
Definition get_result (entry : QueueEntry) (timeout : option pyfloat)
    : M (option ExecutorResult) :=
  fast <- load_collected (stash_rev entry) ;;
  match fast with
  | Some res => ret res
  | None => scan_broker entry timeout
  end.

(** Lines 201-203: [yield QueueDoneResult(entry, self.get_result(entry))],
    with the default [timeout=None]. *)
Definition iter_done : Gen QueueDoneResult :=
  gen_then _iter_done_tasks (fun te =>
    res <- get_result te.2 None ;; ret (Some (te.2, res))).

(** Lines 151-157; [in stash_revs] is membership among the keys. *)
Definition _remove_revs (revs : gmap string ExpStashEntry) : M unit :=
  try_finally
    (for_gen _iter_queued (fun me =>
       if decide (stash_rev me.2 ∈ dom revs)
       then celery_reject (delivery_tag me.1) ;; ret (@None unit)
       else ret None) ;;
     ret tt)
    (super_remove_revs revs).

(** *** Name resolution *)

(** Modelled from the spec: [QueueEntry.__eq__] and [__hash__] are in
    [queue/base.py]; equality and hashing are on the stash revision alone,
    so adding to a set of entries keeps the first entry of each revision. *)
Definition set_add (e : QueueEntry) (s : list QueueEntry) : list QueueEntry :=
  if decide (stash_rev e ∈ stash_rev <$> s) then s else s ++ [e].

(** Modelled from the spec: [match_queue_entry_by_name] is in
    [queue/base.py].  An entry answers an identifier when its revision
    starts with the identifier or its symbolic name equals it. *)
Definition entry_matches (ident : string) (e : QueueEntry) : bool :=
  String.prefix ident (stash_rev e) || bool_decide (name e = Some ident).

(** Modelled from the spec: one entry read by [match_queue_entry_by_name]
    resolves every identifier that is still unresolved and that the entry
    answers. *)
Definition resolve_with (e : QueueEntry) (d : gmap string (option QueueEntry))
    : gmap string (option QueueEntry) :=
  map_imap (fun ident o =>
              Some (match o with
                    | Some found => Some found
                    | None => if entry_matches ident e then Some e else None
                    end)) d.

(** Modelled from the spec: the test that ends the scan of
    [match_queue_entry_by_name], every identifier being resolved. *)
Definition all_resolved (d : gmap string (option QueueEntry)) : bool :=
  bool_decide (map_Forall (fun _ o => is_Some o) d).

(** Modelled from the spec: the scan of [match_queue_entry_by_name]
    through one source that has been opened. *)
Fixpoint scan_list {A} (step : A -> M (option QueueEntry)) (l : list A)
    (d : gmap string (option QueueEntry)) : M (gmap string (option QueueEntry)) :=
  match l with
  | [] => ret d
  | a :: l' =>
      if all_resolved d then ret d
      else
        oe <- step a ;;
        scan_list step l' (match oe with
                           | Some e => resolve_with e d
                           | None => d
                           end)
  end.

(** Modelled from the spec: the scan of [match_queue_entry_by_name]
    through one source; a source is not opened once everything is
    resolved. *)
Definition scan_gen (g : Gen QueueEntry) (d : gmap string (option QueueEntry))
    : M (gmap string (option QueueEntry)) :=
  if all_resolved d then ret d
  else l <- gen_open g ;; scan_list (gen_step g) l d.

(** Modelled from the spec: the sources of [match_queue_entry_by_name],
    read in the order given. *)
Fixpoint scan_sources (gs : list (Gen QueueEntry))
    (d : gmap string (option QueueEntry)) : M (gmap string (option QueueEntry)) :=
  match gs with
  | [] => ret d
  | g :: gs' => d' <- scan_gen g d ;; scan_sources gs' d'
  end.

(** Modelled from the spec: [match_queue_entry_by_name(identifiers,
    *entry_sources)] maps every identifier to the first entry that answers
    it, the sources being read in the order given, or to null; it stops
    reading as soon as every identifier is resolved and raises nothing of
    its own. *)
Definition match_queue_entry_by_name (exp_names : gset string)
    (sources : list (Gen QueueEntry)) : M (gmap string (option QueueEntry)) :=
  scan_sources sources (gset_to_gmap None exp_names).

(** *** Control operations *)

(** The loop of [kill] over [name_dict.items()]. *)
Definition split_names (items : list (string * option QueueEntry))
    : list string * list QueueEntry :=
  fold_left (fun acc item =>
               match item.2 with
               | None => (acc.1 ++ [item.1], acc.2)
               | Some queue_entry => (acc.1, set_add queue_entry acc.2)
               end) items ([], []).

(** Lines 243-260.  [set(revs)] and the items of the name dictionary come
    in no particular order. *)
Definition kill (revs : list string) : M unit :=
  name_dict <- match_queue_entry_by_name (list_to_set revs) [iter_active] ;;
  let missing_rev := (split_names (map_to_list name_dict)).1 in
  let to_kill := (split_names (map_to_list name_dict)).2 in
  match missing_rev with
  | _ :: _ => raise (UnresolvedQueueExpNamesError missing_rev)
  | [] =>
      for_list to_kill (fun queue_entry =>
        proc_kill (stash_rev queue_entry) ;; ret (@None unit)) ;;
      ret tt
  end.

Definition ui_write (text : string) : M unit := emit (EvUiWrite text).

(** [for line in self.proc.follow(entry.stash_rev, encoding):
    ui.write(line, end="")]; the process manager's stream may end with an
    exception, such as the caller's [KeyboardInterrupt]. *)
Definition follow (entry : QueueEntry) (encoding : option string) : M unit :=
  emit (EvProcFollow (stash_rev entry) encoding) ;;
  stream <- (fun w => (Ret (proc_follow (env w) (stash_rev entry)), w)) ;;
  for_list stream.1 (fun line => ui_write line ;; ret (@None unit)) ;;
  match stream.2 with
  | Some e => raise e
  | None => ret tt
  end.

(** [self.proc[rev]] and [proc_info.stdout]. *)
Definition proc_stdout (rev : string) : M string :=
  fun w => match procs w !! rev with
           | Some path => (Ret path, w)
           | None => (Raise (KeyError rev), w)
           end.

(** [open(path).read()]. *)
Definition read_file (path : string) : M string :=
  fun w => match files w !! path with
           | Some text => (Ret text, w)
           | None => (Raise FileNotFoundError, w)
           end.

Definition newline : string := String (Ascii.ascii_of_nat 10) EmptyString.

(** Lines 279-314.  [.get(rev)] is [None] for a missing key as for a key
    bound to [None]; [rev in mapping] is membership among the keys.  The
    choice of a text encoding is left out. *)
Definition logs (rev : string) (encoding : option string) (follow_logs : bool)
    : M unit :=
  name_dict <- match_queue_entry_by_name {[rev]}
                 [iter_active; gen_map fst iter_done] ;;
  match mjoin (name_dict !! rev) with
  | None =>
      queued_dict <- match_queue_entry_by_name {[rev]} [iter_queued] ;;
      if decide (is_Some (queued_dict !! rev))
      then raise (DvcException
                    ("Experiment '" ++ rev
                       ++ "' is in queue but has not been started"))
      else raise (UnresolvedQueueExpNamesError [rev])
  | Some queue_entry =>
      if follow_logs
      then
        ui_write ("Following logs for experiment '" ++ rev
                    ++ "'. Use Ctrl+C to stop "
                    ++ "following logs (experiment execution will continue)."
                    ++ newline) ;;
        try_except (follow queue_entry None)
          (fun e => match e with
                    | KeyboardInterrupt => Some (ret tt)
                    | _ => None
                    end)
      else
        path <- try_except (proc_stdout (stash_rev queue_entry))
                  (fun e => match e with
                            | KeyError _ =>
                                Some (raise (DvcException
                                               ("No output logs found for experiment '"
                                                  ++ rev ++ "'")))
                            | _ => None
                            end) ;;
        text <- read_file path ;;
        ui_write text
  end.

(** ** [WorkspaceQueue] *)

(** Modelled from the spec: [setup_executor] is in [queue/base.py].  It
    builds the executor bound to the entry and takes the entry's record off
    the stash, which is what makes [get] pop. *)
Definition setup_executor (entry : QueueEntry) : M Executor :=
  fun w =>
    (Ret (mkExecutor entry (executor_is_workspace (env w))),
     log (EvSetupExecutor (stash_rev entry))
         (set_stash_revs
            (filter (fun p => p.1 <> stash_rev entry) (stash_revs w)) w)).

(** [WorkspaceQueue.get], lines 321-337; [first(revs.items())] is the
    first item of the dictionary, in its order. *)
Definition ws_get : M QueueGetResult :=
  revs <- (fun w => (Ret (stash_revs w), w)) ;;
  match revs with
  | [] => raise (ExpQueueEmptyError "No experiments in the queue.")
  | (stash_rev, stash_entry) :: _ =>
      e <- (fun w => (Ret (env w), w)) ;;
      let entry :=
        mkQueueEntry (root_dir e) (scm_root_dir e) (queue_ref e) stash_rev
                     (se_baseline_rev stash_entry) (se_branch stash_entry)
                     (se_name stash_entry) (se_head_rev stash_entry) in
      executor <- setup_executor entry ;;
      ret (entry, executor)
  end.

(** Modelled from the spec: [get_infofile_path] is in [queue/base.py]; the
    info record of a name lives under the queue's pid directory. *)
Definition get_infofile_path (exec_name : string) : M string :=
  fun w =>
    (Ret (pid_dir (env w) ++ "/" ++ exec_name ++ "/" ++ exec_name ++ ".run")%string,
     w).

Definition executor_reproduce (executor : Executor) (rev infofile : string)
    (log_errors : bool) : M ExecutorResult :=
  fun w =>
    let run := executor_run (env w) rev in
    (run_outcome run,
     log (EvExecReproduce rev infofile log_errors)
         (set_exec_branch (run_exec_branch run) w)).

Definition executor_cleanup (executor : Executor) : M unit :=
  emit (EvExecCleanup (stash_rev (executor_entry executor))).

(** Lines 410-422; [exp.scm.get_ref(EXEC_BRANCH)] reads the reference
    that the executor left. *)
Definition collect_executor (executor : Executor) (exec_result : ExecutorResult)
    : M (gmap string string) :=
  exp_rev <- (fun w => (Ret (exec_branch w), w)) ;;
  if truthy exp_rev
  then
    if truthy (exp_hash exec_result)
    then ret {[ default "" exp_rev := default "" (exp_hash exec_result) ]}
    else raise AssertionError
  else ret ∅.

Definition failed_to_reproduce (rev : string) : Exn :=
  DvcException ("Failed to reproduce experiment '" ++ substring 0 7 rev ++ "'").

(** Lines 370-408.  [results] is a fresh dictionary, so that
    [results[rev].update(...)] leaves it with the one key [rev]. *)
Definition _reproduce_entry (entry : QueueEntry) (executor : Executor)
    : M (gmap string (gmap string string)) :=
  let exec_name := "workspace" in
  infofile <- get_infofile_path exec_name ;;
  let rev := stash_rev entry in
  try_finally
    (try_except
       (exec_result <- executor_reproduce executor rev infofile
                         (negb (is_workspace_executor executor)) ;;
        if negb (truthy (exp_hash exec_result))
        then raise (failed_to_reproduce rev)
        else
          match ref_info exec_result with
          | Some _ =>
              collected_refs <- collect_executor executor exec_result ;;
              ret {[ rev := collected_refs ]}
          | None => ret ∅
          end)
       (fun e =>
          match e with
          | CheckpointKilledError => Some (ret ∅)
          | _ =>
              if is_DvcException e then None
              else if is_Exception e then Some (raise (failed_to_reproduce rev))
              else None
          end))
    (executor_cleanup executor).

(** [except ExpQueueEmptyError: pass] followed by [return results]. *)
Definition on_queue_empty (results : gmap string (gmap string string)) (e : Exn)
    : Res (gmap string (gmap string string)) :=
  match e with
  | ExpQueueEmptyError _ => Ret results
  | _ => Raise e
  end.

(** The [while True] loop of [reproduce]; [results] is the dictionary that
    the loop updates in place.  [None] is a loop that has not ended within
    [fuel] turns. *)
Fixpoint reproduce_loop (fuel : nat) (results : gmap string (gmap string string))
    (w : World) : option (Res (gmap string (gmap string string)) * World) :=
  match fuel with
  | O => None
  | S fuel' =>
      match (got <- ws_get ;; _reproduce_entry got.1 got.2) w with
      | (Ret entry_results, w1) =>
          reproduce_loop fuel' (entry_results ∪ results) w1
      | (Raise e, w1) => Some (on_queue_empty results e, w1)
      end
  end.

(** [WorkspaceQueue.reproduce], lines 360-368. *)
Definition reproduce (fuel : nat) (w : World)
    : option (Res (gmap string (gmap string string)) * World) :=
  reproduce_loop fuel ∅ w.

(** ** Further operations of [LocalCeleryQueue] *)

(** Modelled from the spec: [QueueEntry.asdict] is in [queue/base.py]; the
    inverse of [from_dict]. *)
Definition asdict (entry : QueueEntry) : QueueEntry := entry.

(** Modelled from the spec: the broker's enqueue, reached through
    [self.celery.signature(run_exp.s(entry_dict)).delay()].  A message of
    this task type, with the dictionary as its only positional argument and
    no keyword argument, joins the messages that the queued view shows.
    [task_id] and [tag] are the task id and the delivery tag that the
    message is given, and [place] is the number of queued messages that the
    view shows before it: all three are the broker's choice. *)
Definition celery_delay (place : nat) (task_id tag : string)
    (entry_dict : QueueEntry) : M unit :=
  fun w =>
    (Ret tt,
     set_queued
       (take place (queued w)
          ++ mkMessage {[ "task" := run_exp_name; "id" := task_id ]} tag
                       [entry_dict] ∅
          :: drop place (queued w)) w).

(** Lines 140-144.  [stash_exp] is the call of [self._stash_exp], a method
    of [queue/base.py], taken as it comes. *)
Definition put (stash_exp : M QueueEntry) (place : nat) (task_id tag : string)
    : M QueueEntry :=
  entry <- stash_exp ;;
  celery_delay place task_id tag (asdict entry) ;;
  ret entry.

(** What [shutdown] adds to the observable state: the shutdown broadcasts
    sent to the workers through [celery.control], each with the number of
    collaborator calls made before it. *)
Record Control : Type := mkControl {
  control_world : World;
  broadcasts : list nat;
}.

(** [self.celery.control.shutdown()]. *)
Definition control_shutdown (c : Control) : Control :=
  mkControl (control_world c)
            (broadcasts c ++ [length (trace (control_world c))]).

(** Lines 265-269: the loop of [shutdown] over the active tasks, with its
    [except ProcessLookupError: continue]. *)
Definition kill_active : M unit :=
  for_gen _iter_active_tasks (fun te =>
    try_except (proc_kill (stash_rev te.2))
      (fun e => match e with
                | ProcessLookupError => Some (ret tt)
                | _ => None
                end) ;;
    ret (@None unit)) ;;
  ret tt.

(** Lines 262-269. *)
Definition shutdown (kill_procs : bool) (c : Control) : Res unit * Control :=
  let c1 := control_shutdown c in
  if kill_procs
  then (let (r, w1) := kill_active (control_world c1) in
        (r, mkControl w1 (broadcasts c1)))
  else (Ret tt, c1).

(** ** Further operations of [WorkspaceQueue] *)

(** Modelled from the spec: [_stash_exp] is in [queue/base.py].  It records
    the job in the stash and returns the new entry.  The stash lists its
    records in insertion order, the oldest first, so that the new record
    comes last; [rev] is the revision that the stash gives the record, new
    to the stash. *)
Definition _stash_exp (rev : string) (stash_entry : ExpStashEntry) : M QueueEntry :=
  fun w =>
    (Ret (mkQueueEntry (root_dir (env w)) (scm_root_dir (env w))
                       (queue_ref (env w)) rev
                       (se_baseline_rev stash_entry) (se_branch stash_entry)
                       (se_name stash_entry) (se_head_rev stash_entry)),
     set_stash_revs (stash_revs w ++ [(rev, stash_entry)]) w).

(** [WorkspaceQueue.put], lines 318-319. *)
Definition ws_put (rev : string) (stash_entry : ExpStashEntry) : M QueueEntry :=
  _stash_exp rev stash_entry.

(** Strings are held as their UTF-8 bytes, and Python takes a string apart
    by characters: a byte [10xxxxxx] continues the character begun before
    it. *)
Definition is_continuation (a : Ascii.ascii) : bool :=
  match a with
  | Ascii.Ascii _ _ _ _ _ _ b6 b7 => b7 && negb b6
  end.

(** The characters of [s], in order, after the continuation bytes that [s]
    starts with. *)
Fixpoint split_characters (s : string) : string * list string :=
  match s with
  | EmptyString => (EmptyString, [])
  | String a s' =>
      if is_continuation a
      then (String a (split_characters s').1, (split_characters s').2)
      else (EmptyString,
            String a (split_characters s').1 :: (split_characters s').2)
  end.

Definition characters (s : string) : list string := (split_characters s).2.

(** What the name [entry] of the loop of [iter_queued] may hold: a stash
    record, or a string. *)
Inductive PyValue : Type :=
| PyStashEntry (stash_entry : ExpStashEntry)
| PyStr (s : string).

(** [rev, entry = item] for a string [item]: its characters, which have to
    be two. *)
Definition unpack_pair (item : string) : M (string * PyValue) :=
  match characters item with
  | [rev; entry] => ret (rev, PyStr entry)
  | _ => raise (OtherError "ValueError")
  end.

(** [obj.field], [field] being an attribute of stash records; a string has
    none of them. *)
Definition getattr {A} (field : ExpStashEntry -> A) (obj : PyValue) : M A :=
  match obj with
  | PyStashEntry stash_entry => ret (field stash_entry)
  | PyStr _ => raise (OtherError "AttributeError")
  end.

(** Lines 339-350.  [for rev, entry in self.stash.stash_revs] walks the
    dictionary itself, that is its keys, and unpacks each key into the two
    names; the arguments of [QueueEntry] are evaluated from left to
    right. *)
Definition ws_iter_queued : Gen QueueEntry :=
  mkGen string
        (fun w => (Ret (stash_revs w).*1, w))
        (fun item =>
           pair <- unpack_pair item ;;
           e <- (fun w => (Ret (env w), w)) ;;
           baseline_rev <- getattr se_baseline_rev pair.2 ;;
           branch <- getattr se_branch pair.2 ;;
           name <- getattr se_name pair.2 ;;
           head_rev <- getattr se_head_rev pair.2 ;;
           ret (Some (mkQueueEntry (root_dir e) (scm_root_dir e) (queue_ref e)
                                   pair.1 baseline_rev branch name head_rev))).

(** * Verification *)

(** ** Notions used in the statements *)

(** A generator step is quiet when it leaves the world as it is and does
    not look at the trace. *)
Definition quiet {A B} (step : A -> M (option B)) : Prop :=
  forall a w,
    (step a w).2 = w /\ forall evs, (step a (log_all evs w)).1 = (step a w).1.

(** No collected info record for [rev]: the record is missing, or it is
    there and does not report collected. *)
Definition uncollected (w : World) (rev : string) : Prop :=
  forall info, infofiles w !! rev = Some info -> collected info = false.

(** The world once the backend reports the task finished: the worker's
    info records are in place and the task is terminal. *)
Definition after_wait (task_id : string) (store : gmap string ExecutorInfo)
    (w : World) : World :=
  set_ready ({[task_id]} ∪ ready w) (set_infofiles store w).

(** What the [except _CeleryTimeout] clause makes of an exception of
    [result.get]. *)
Definition wait_error (e : Exn) : Exn :=
  match e with
  | CeleryTimeout => DvcException "Timed out waiting for exp to finish."
  | _ => e
  end.

(** The loop of [scan_broker] over the queued view. *)
Definition queued_loop (entry : QueueEntry) : M (option unit) :=
  for_gen iter_queued (fun queue_entry =>
    if decide (stash_rev entry = stash_rev queue_entry)
    then raise (DvcException "Experiment has not been started.")
    else ret (@None unit)).

(** The loop of [scan_broker] over the active tasks. *)
Definition active_loop (entry : QueueEntry) (timeout : option pyfloat)
    : M (option (option ExecutorResult)) :=
  for_gen _iter_active_tasks (fun te =>
    if decide (stash_rev entry = stash_rev te.2)
    then res <- wait_for_task te.1 (stash_rev entry) timeout ;; ret (Some res)
    else ret None).

(** The loop head that [_iter_active_tasks] and [_iter_done_tasks] share:
    every delivered message of this task type, decoded, with the task id
    of its [id] header. *)
Definition delivered_tasks : Gen _TaskEntry :=
  gen_then _iter_processed (fun me =>
    task_id <- lift (header_id me.1) ;; ret (Some (task_id, me.2))).

(** What one delivered message contributes to [delivered_tasks]. *)
Definition task_of_message (msg : Message) : Res (option _TaskEntry) :=
  if decide (headers msg !! "task" <> Some run_exp_name) then Ret None
  else match decode_entry msg with
       | Raise e => Raise e
       | Ret entry =>
           match header_id msg with
           | Raise e => Raise e
           | Ret task_id => Ret (Some (task_id, entry))
           end
       end.

(** A collected info record exists for [rev]. *)
Definition has_collected (w : World) (rev : string) : Prop :=
  exists info, infofiles w !! rev = Some info /\ collected info = true.

(** The result field of the info record of [rev], if there is a record. *)
Definition stored_result (w : World) (rev : string) : option ExecutorResult :=
  infofiles w !! rev ≫= result.

(** A done task paired with the stored result of its entry. *)
Definition done_pair (w : World) (te : _TaskEntry) : QueueDoneResult :=
  (te.2, stored_result w (stash_rev te.2)).

(** What one message contributes to [_iter_queued] or [_iter_processed]. *)
Definition entry_of_message (msg : Message) : Res (option _MessageEntry) :=
  if decide (headers msg !! "task" <> Some run_exp_name) then Ret None
  else match decode_entry msg with
       | Raise e => Raise e
       | Ret entry => Ret (Some (msg, entry))
       end.

(** The items and the final exception of a generator whose step is the
    pure function [f]. *)
Fixpoint collect_pure {A B} (f : A -> Res (option B)) (l : list A)
    : list B * option Exn :=
  match l with
  | [] => ([], None)
  | a :: l' =>
      match f a with
      | Raise e => ([], Some e)
      | Ret None => collect_pure f l'
      | Ret (Some b) => (b :: (collect_pure f l').1, (collect_pure f l').2)
      end
  end.

(** The body of the loop of [_remove_revs]. *)
Definition reject_matching (revs : gmap string ExpStashEntry) (me : _MessageEntry)
    : M (option unit) :=
  if decide (stash_rev me.2 ∈ dom revs)
  then celery_reject (delivery_tag me.1) ;; ret (@None unit)
  else ret None.

(** The entry that [WorkspaceQueue.get] builds from a stash record. *)
Definition stash_queue_entry (e : Env) (rev : string) (se : ExpStashEntry)
    : QueueEntry :=
  mkQueueEntry (root_dir e) (scm_root_dir e) (queue_ref e) rev
               (se_baseline_rev se) (se_branch se) (se_name se) (se_head_rev se).

(** The info record path that [_reproduce_entry] hands to the executor. *)
Definition workspace_infofile (e : Env) : string :=
  pid_dir e ++ "/" ++ "workspace" ++ "/" ++ "workspace" ++ ".run".

(** The world after [_reproduce_entry]: the executor has run and has been
    cleaned up. *)
Definition after_entry (entry : QueueEntry) (executor : Executor) (w : World)
    : World :=
  log_all [EvExecReproduce (stash_rev entry) (workspace_infofile (env w))
                           (negb (is_workspace_executor executor));
           EvExecCleanup (stash_rev (executor_entry executor))]
          (set_exec_branch
             (run_exec_branch (executor_run (env w) (stash_rev entry))) w).

(** The world after one turn of the loop of [reproduce]. *)
Definition after_turn (w : World) : World :=
  ((got <- ws_get ;; _reproduce_entry got.1 got.2) w).2.

(** The name dictionary once the entries [ys] have been read: every
    identifier still unresolved in [d] gets the first entry of [ys] that
    answers it. *)
Definition resolve_all (ys : list QueueEntry) (d : gmap string (option QueueEntry))
    : gmap string (option QueueEntry) :=
  map_imap (fun ident o =>
              Some (match o with
                    | Some found => Some found
                    | None => List.find (entry_matches ident) ys
                    end)) d.

(** The active entry that answers an identifier, if any. *)
Definition resolve_active (w : World) (ident : string) : option QueueEntry :=
  List.find (entry_matches ident) (yielded iter_active w).

(** The entries that [kill] collects from the items of the name
    dictionary, as a set of entries. *)
Definition kill_set (items : list (string * option QueueEntry))
    (acc : list QueueEntry) : list QueueEntry :=
  fold_left (fun k item =>
               match item.2 with
               | None => k
               | Some queue_entry => set_add queue_entry k
               end) items acc.

(** The loop of [kill] over the entries to kill. *)
Definition kill_loop (to_kill : list QueueEntry) : M (option unit) :=
  for_list to_kill (fun queue_entry =>
    proc_kill (stash_rev queue_entry) ;; ret (@None unit)).

(** Two worlds that differ in their traces only. *)
Ltac same_world :=
  unfold log, log_all, set_trace; simpl; rewrite <- ?app_assoc; reflexivity.

(** ** A sample world

    One queued experiment, one running under task [task-2], one finished
    and collected under task [task-3], and a delivered message of another
    task type.  The running task, once waited for, leaves an info record
    that does not report collected. *)
Module Sample.

Definition res_b : ExecutorResult :=
  mkExecutorResult (Some "hash-b") (Some "refs/exps/b") false.
Definition res_c : ExecutorResult :=
  mkExecutorResult (Some "hash-c") (Some "refs/exps/c") false.

Definition entry (rev : string) (exp_name : option string) : QueueEntry :=
  mkQueueEntry "/repo" "/repo" "refs/exps/celery/stash" rev "base000" None
               exp_name None.

Definition entry_a : QueueEntry := entry "abc123" None.
Definition entry_b : QueueEntry := entry "def456" (Some "exp-b").
Definition entry_c : QueueEntry := entry "aaa111" None.
Definition entry_d : QueueEntry := entry "fff000" None.

Definition message (task task_id tag : string) (e : QueueEntry) : Message :=
  mkMessage {[ "task" := task; "id" := task_id ]} tag [e] ∅.

Definition store_after_b : gmap string ExecutorInfo :=
  {[ "aaa111" := mkExecutorInfo true (Some res_c);
     "def456" := mkExecutorInfo false (Some res_b) ]}.

Definition sample_env : Env :=
  mkEnv "/repo" "/repo" "refs/exps/celery/stash" "/repo/.dvc/tmp/exps/run"
        (fun task_id timeout =>
           if String.eqb task_id "task-2"
           then match timeout with
                | Some _ => WaitTimeout
                | None => WaitDone store_after_b
                end
           else WaitTimeout)
        (fun _ => None) (fun _ => None) (fun _ => ([], None))
        (fun _ => mkExecRun (Raise CheckpointKilledError) None) true.

Definition world : World :=
  mkWorld sample_env
          {[ "aaa111" := mkExecutorInfo true (Some res_c) ]}
          [message run_exp_name "task-1" "tag-1" entry_a]
          [message run_exp_name "task-2" "tag-2" entry_b;
           message "dvc_task.proc.tasks.run" "task-9" "tag-9" entry_d;
           message run_exp_name "task-3" "tag-3" entry_c]
          {[ "task-3" ]} [] None ∅ ∅ [].

(** Two queued experiments; the broker refuses to reject the second. *)
Definition refusing_env : Env :=
  mkEnv "/repo" "/repo" "refs/exps/celery/stash" "/repo/.dvc/tmp/exps/run"
        (fun _ _ => WaitTimeout)
        (fun tag => if String.eqb tag "tag-5" then Some (OtherError "broker") else None)
        (fun _ => None) (fun _ => ([], None))
        (fun _ => mkExecRun (Raise CheckpointKilledError) None) true.

Definition stash_entry : ExpStashEntry := mkExpStashEntry "base000" None None None.

Definition two_queued : list Message :=
  [message run_exp_name "task-1" "tag-1" entry_a;
   message "dvc_task.proc.tasks.run" "task-9" "tag-9" entry_a;
   message run_exp_name "task-4" "tag-4" entry_d;
   message run_exp_name "task-5" "tag-5" entry_b].

Definition world_two_queued : World :=
  mkWorld sample_env ∅ two_queued [] ∅
          [("abc123", stash_entry); ("fff000", stash_entry); ("def456", stash_entry)]
          None ∅ ∅ [].

Definition world_refusing : World :=
  mkWorld refusing_env ∅ two_queued [] ∅
          [("abc123", stash_entry); ("fff000", stash_entry); ("def456", stash_entry)]
          None ∅ ∅ [].

Definition revs_a_b : gmap string ExpStashEntry :=
  {[ "abc123" := stash_entry; "def456" := stash_entry ]}.

(** A queued message of this task type with an empty argument list. *)
Definition world_undecodable : World :=
  mkWorld sample_env ∅
          [message run_exp_name "task-1" "tag-1" entry_a;
           mkMessage {[ "task" := run_exp_name; "id" := "task-6" ]} "tag-6" [] ∅;
           message run_exp_name "task-5" "tag-5" entry_b]
          [] ∅ [("abc123", stash_entry); ("def456", stash_entry)] None ∅ ∅ [].

(** The same broker, with no info record written for the finished task. *)
Definition world_unwritten : World := set_infofiles ∅ world.

(** The same broker, the finished task's record written but not collected. *)
Definition world_uncollected : World :=
  set_infofiles {[ "aaa111" := mkExecutorInfo false (Some res_c) ]} world.

(** A workspace queue with two stashed experiments; the executor is
    killed at a checkpoint while running the first, [abc123], and succeeds
    on the second, [def456]; [fff000] ends without an experiment hash. *)
Definition workspace_env : Env :=
  mkEnv "/repo" "/repo" "refs/exps/stash" "/repo/.dvc/tmp/exps/run"
        (fun _ _ => WaitTimeout) (fun _ => None) (fun _ => None)
        (fun _ => ([], None))
        (fun rev =>
           if String.eqb rev "abc123"
           then mkExecRun (Raise CheckpointKilledError) None
           else if String.eqb rev "def456"
           then mkExecRun (Ret res_b) (Some "1234567890")
           else mkExecRun (Ret (mkExecutorResult None None false)) None)
        true.

Definition workspace (stash : list (string * ExpStashEntry)) : World :=
  mkWorld workspace_env ∅ [] [] ∅ stash None ∅ ∅ [].

Definition killed_then_done : World :=
  workspace [("abc123", stash_entry); ("def456", stash_entry)].

Definition done_then_killed : World :=
  workspace [("def456", stash_entry); ("abc123", stash_entry)].

Definition no_hash_first : World :=
  workspace [("fff000", stash_entry); ("def456", stash_entry)].

(** A broker with nothing queued and nothing delivered. *)
Definition idle : World := mkWorld sample_env ∅ [] [] ∅ [] None ∅ ∅ [].

End Sample.

(** ** Notions used for the further properties *)

(** The calls by which the queue only reads from its collaborators or
    waits for them. *)
Definition is_read_call (ev : Event) : bool :=
  match ev with
  | EvLoadInfo _ | EvIterQueued | EvIterProcessed | EvTaskGet _ _ => true
  | _ => false
  end.

(** A message of this system's task type. *)
Definition is_run_exp (msg : Message) : Prop :=
  headers msg !! "task" = Some run_exp_name.

#[global] Instance is_run_exp_dec msg : Decision (is_run_exp msg).
Proof. unfold is_run_exp. apply _. Defined.

(** What a successful execution of [rev] contributes to the results of
    [reproduce]: the reference that the executor left, mapped to the
    experiment hash. *)
Definition run_refs (e : Env) (rev : string) : gmap string string :=
  match run_outcome (executor_run e rev) with
  | Ret er =>
      {[ default "" (run_exec_branch (executor_run e rev))
         := default "" (exp_hash er) ]}
  | Raise _ => ∅
  end.

(** An execution that ends with an experiment hash and a reference, the
    [EXEC_BRANCH] reference being set. *)
Definition good_run (e : Env) (rev : string) : Prop :=
  exists er,
    run_outcome (executor_run e rev) = Ret er
    /\ truthy (exp_hash er) = true
    /\ is_Some (ref_info er)
    /\ truthy (run_exec_branch (executor_run e rev)) = true.

(** The collaborator calls of one turn of the loop of [reproduce]. *)
Definition turn_calls (e : Env) (rev : string) : list Event :=
  [EvSetupExecutor rev;
   EvExecReproduce rev (workspace_infofile e) (negb (executor_is_workspace e));
   EvExecCleanup rev].

(** A kill that [shutdown] gets over: the process manager kills the
    process, or reports that the process is gone. *)
Definition tolerated (e : Env) (rev : string) : Prop :=
  kill_exn e rev = None \/ kill_exn e rev = Some ProcessLookupError.

(** The kills of the processes of a list of tasks, in order. *)
Definition kills_of (tasks : list _TaskEntry) : list Event :=
  (fun te : _TaskEntry => EvProcKill (stash_rev te.2)) <$> tasks.

(** The body of the loop of [shutdown]. *)
Definition kill_tolerantly (te : _TaskEntry) : M (option unit) :=
  try_except (proc_kill (stash_rev te.2))
    (fun e => match e with
              | ProcessLookupError => Some (ret tt)
              | _ => None
              end) ;;
  ret (@None unit).

(** The notice that [logs] writes before following. *)
Definition follow_notice (rev : string) : string :=
  ("Following logs for experiment '" ++ rev
     ++ "'. Use Ctrl+C to stop "
     ++ "following logs (experiment execution will continue)."
     ++ newline)%string.

(** What the execution of the record [rev] adds to the results of
    [reproduce], when [_reproduce_entry] returns: nothing for an execution
    killed at a checkpoint or one that leaves no reference, and otherwise
    the references collected for [rev]. *)
Definition run_result (e : Env) (rev : string)
    : option (gmap string (gmap string string)) :=
  match run_outcome (executor_run e rev) with
  | Raise CheckpointKilledError => Some ∅
  | Raise _ => None
  | Ret er =>
      if truthy (exp_hash er)
      then Some (match ref_info er with
                 | None => ∅
                 | Some _ =>
                     {[ rev := if truthy (run_exec_branch (executor_run e rev))
                               then run_refs e rev else ∅ ]}
                 end)
      else None
  end.

(** [results.update(entry_results)], for the results of the entries
    [gathered] in turn. *)
Definition updated (results : gmap string (gmap string string))
    (gathered : list (gmap string (gmap string string)))
    : gmap string (gmap string string) :=
  foldl (fun acc entry_results => entry_results ∪ acc) results gathered.

(** [put] for each of [records], in order. *)
Fixpoint put_all (records : list (string * ExpStashEntry)) : M unit :=
  match records with
  | [] => ret tt
  | (rev, stash_entry) :: later => ws_put rev stash_entry ;; put_all later
  end.

(** [get] called [n] times; the entries it returns, in order. *)
Fixpoint get_all (n : nat) : M (list QueueEntry) :=
  match n with
  | O => ret []
  | S n' => got <- ws_get ;; later <- get_all n' ;; ret (got.1 :: later)
  end.

(** The message that [put] sends for an entry. *)
Definition sent_message (task_id tag : string) (entry : QueueEntry) : Message :=
  mkMessage {[ "task" := run_exp_name; "id" := task_id ]} tag [asdict entry] ∅.

(** ** Further sample worlds *)
Module Cases.

(** The sample broker with a backend whose running task, once waited
    for, leaves a collected info record. *)
Definition store_collected : gmap string ExecutorInfo :=
  {[ "def456" := mkExecutorInfo true (Some Sample.res_b) ]}.

Definition collecting_env : Env :=
  mkEnv "/repo" "/repo" "refs/exps/celery/stash" "/repo/.dvc/tmp/exps/run"
        (fun _ _ => WaitDone store_collected)
        (fun _ => None) (fun _ => None) (fun _ => ([], None))
        (fun _ => mkExecRun (Raise CheckpointKilledError) None) true.

Definition finishing : World :=
  mkWorld collecting_env ∅ (queued Sample.world) (processed Sample.world)
          (ready Sample.world) [] None ∅ ∅ [].

(** A queue whose second message is of this task type and carries its
    entry as the keyword argument, with no positional argument. *)
Definition keyword_only : Message :=
  mkMessage {[ "task" := run_exp_name; "id" := "task-7" ]} "tag-7" []
            {[ "entry_dict" := Sample.entry_d ]}.

Definition world_keyword_only : World :=
  mkWorld Sample.sample_env ∅
          [Sample.message run_exp_name "task-1" "tag-1" Sample.entry_a;
           keyword_only;
           Sample.message run_exp_name "task-5" "tag-5" Sample.entry_b]
          [] ∅ [] None ∅ ∅ [].

(** A workspace queue on which every execution succeeds. *)
Definition succeeding_env : Env :=
  mkEnv "/repo" "/repo" "refs/exps/stash" "/repo/.dvc/tmp/exps/run"
        (fun _ _ => WaitTimeout) (fun _ => None) (fun _ => None)
        (fun _ => ([], None))
        (fun rev =>
           mkExecRun (Ret (mkExecutorResult (Some ("hash-" ++ rev)%string)
                                            (Some "refs/exps/x") false))
                     (Some ("branch-" ++ rev)%string))
        true.

Definition two_stashed : World :=
  mkWorld succeeding_env ∅ [] [] ∅
          [("abc123", Sample.stash_entry); ("xy", Sample.stash_entry)]
          None ∅ ∅ [].

(** A workspace queue whose executor fails with an error that is not a
    [DvcException]. *)
Definition failing_env : Env :=
  mkEnv "/repo" "/repo" "refs/exps/stash" "/repo/.dvc/tmp/exps/run"
        (fun _ _ => WaitTimeout) (fun _ => None) (fun _ => None)
        (fun _ => ([], None))
        (fun rev => mkExecRun (Raise (KeyError "params")) None)
        true.

Definition one_failing : World :=
  mkWorld failing_env ∅ [] [] ∅ [("abc1234567", Sample.stash_entry)]
          None ∅ ∅ [].

(** Two running experiments; the process of the first is gone. *)
Definition gone_env : Env :=
  mkEnv "/repo" "/repo" "refs/exps/celery/stash" "/repo/.dvc/tmp/exps/run"
        (fun _ _ => WaitTimeout) (fun _ => None)
        (fun rev => if String.eqb rev "abc123" then Some ProcessLookupError
                    else None)
        (fun _ => ([], None))
        (fun _ => mkExecRun (Raise CheckpointKilledError) None) true.

(** Two running experiments; the process manager does not know the first. *)
Definition unknown_env : Env :=
  mkEnv "/repo" "/repo" "refs/exps/celery/stash" "/repo/.dvc/tmp/exps/run"
        (fun _ _ => WaitTimeout) (fun _ => None)
        (fun rev => if String.eqb rev "abc123" then Some (KeyError "abc123")
                    else None)
        (fun _ => ([], None))
        (fun _ => mkExecRun (Raise CheckpointKilledError) None) true.

Definition two_running (e : Env) : World :=
  mkWorld e ∅ []
          [Sample.message run_exp_name "task-1" "tag-1" Sample.entry_a;
           Sample.message run_exp_name "task-2" "tag-2" Sample.entry_b]
          ∅ [] None ∅ ∅ [EvIterQueued].

(** One running experiment whose output is followed until the caller
    interrupts, and whose output file is known to the process manager. *)
Definition streaming_env : Env :=
  mkEnv "/repo" "/repo" "refs/exps/celery/stash" "/repo/.dvc/tmp/exps/run"
        (fun _ _ => WaitTimeout) (fun _ => None) (fun _ => None)
        (fun _ => (["epoch 1"; "epoch 2"], Some KeyboardInterrupt))
        (fun _ => mkExecRun (Raise CheckpointKilledError) None) true.

Definition streaming : World :=
  mkWorld streaming_env ∅ []
          [Sample.message run_exp_name "task-1" "tag-1" Sample.entry_a]
          ∅ [] None
          {[ "abc123" := "/repo/.dvc/tmp/exps/run/abc123/abc123.out" ]}
          {[ "/repo/.dvc/tmp/exps/run/abc123/abc123.out" := "epoch 1 epoch 2" ]}
          [].

(** The same experiment, unknown to the process manager. *)
Definition untracked : World :=
  mkWorld streaming_env ∅ []
          [Sample.message run_exp_name "task-1" "tag-1" Sample.entry_a]
          ∅ [] None ∅ ∅ [].

End Cases.

(** ** Traces *)

Lemma log_all_log_all evs1 evs2 w :
  log_all evs2 (log_all evs1 w) = log_all (evs1 ++ evs2) w.
Proof. unfold log_all, set_trace; simpl. by rewrite app_assoc. Qed.

Lemma log_log_all ev evs w : log ev (log_all evs w) = log_all (evs ++ [ev]) w.
Proof. apply log_all_log_all. Qed.

Lemma log_as_log_all ev w : log ev w = log_all [ev] w.
Proof. reflexivity. Qed.

Lemma log_all_nil w : log_all [] w = w.
Proof. destruct w; unfold log_all, set_trace; simpl. by rewrite app_nil_r. Qed.

(** ** Generators that only read *)

Lemma quiet_collect_list {A B} (step : A -> M (option B)) (l : list A) :
  quiet step ->
  forall w,
    (collect_list step l w).2 = w
    /\ forall evs, (collect_list step l (log_all evs w)).1 = (collect_list step l w).1.
Proof.
  intros Hq. induction l as [|a l IH]; intros w; simpl; [done|].
  destruct (Hq a w) as [Hw Hevs].
  destruct (IH w) as [IHw IHevs].
  split.
  - destruct (step a w) as [[[b|]|e] w1] eqn:E; simpl in *; subst w1; try done.
    destruct (collect_list step l w) as [[bs err] w2]; simpl in *. done.
  - intros evs. specialize (Hevs evs). specialize (IHevs evs).
    destruct (Hq a (log_all evs w)) as [Hw' _].
    destruct (step a (log_all evs w)) as [r' w1'] eqn:E'.
    destruct (step a w) as [r w1] eqn:E.
    simpl in *. subst. destruct r as [[b|]|e]; try done.
    destruct (collect_list step l (log_all evs w)) as [[bs' err'] w2'].
    destruct (collect_list step l w) as [[bs err] w2]. simpl in *. congruence.
Qed.

Lemma quiet_pull {B C} (g : Gen B) (step : B -> M (option C)) :
  quiet (gen_step g) -> quiet step -> quiet (pull g step).
Proof.
  intros Hg Hs a w. unfold pull, bind, ret.
  destruct (Hg a w) as [Hw Hevs]. split.
  - destruct (gen_step g a w) as [[[b|]|e] w1]; simpl in *; subst; try done.
    apply Hs.
  - intros evs. specialize (Hevs evs).
    destruct (Hg a (log_all evs w)) as [Hw' _].
    destruct (gen_step g a (log_all evs w)) as [r' w1'].
    destruct (gen_step g a w) as [r w1]. simpl in *. subst.
    destruct r as [[b|]|e]; try done. apply Hs.
Qed.

Lemma quiet_message_step : quiet message_step.
Proof.
  intros m w. unfold message_step, bind, ret, lift.
  case_decide; [done|]. destruct (decode_entry m); done.
Qed.

Lemma quiet_ret_map {B C} (f : B -> C) : quiet (fun b => ret (Some (f b))).
Proof. done. Qed.

Lemma quiet_iter_queued : quiet (gen_step iter_queued).
Proof.
  apply (quiet_pull _iter_queued); [apply quiet_message_step | apply quiet_ret_map].
Qed.

Lemma quiet_active_tasks : quiet (gen_step _iter_active_tasks).
Proof.
  apply (quiet_pull _iter_processed); [apply quiet_message_step|].
  intros me w. unfold async_ready, bind, ret, lift.
  destruct (header_id me.1); [|done]. simpl.
  by destruct (bool_decide _).
Qed.

Lemma quiet_done_tasks : quiet (gen_step _iter_done_tasks).
Proof.
  apply (quiet_pull _iter_processed); [apply quiet_message_step|].
  intros me w. unfold async_ready, bind, ret, lift.
  destruct (header_id me.1); [|done]. simpl.
  by destruct (bool_decide _).
Qed.

Lemma quiet_iter_active : quiet (gen_step iter_active).
Proof.
  apply (quiet_pull _iter_active_tasks);
    [apply quiet_active_tasks | apply quiet_ret_map].
Qed.

(** A loop that leaves at the first item satisfying [P], over a quiet
    generator step: it behaves as the search through what the generator
    yields. *)
Lemma for_list_first {A B R} (step : A -> M (option B)) (P : B -> Prop)
    `{!forall b, Decision (P b)} (k : B -> M (option R)) (l : list A) (w : World) :
  quiet step ->
  (forall b w', (k b w').1 <> Ret None) ->
  for_list l (fun a =>
                ob <- step a ;;
                match ob with
                | Some b => if decide (P b) then k b else ret None
                | None => ret None
                end) w
  = match List.find (fun b => bool_decide (P b)) (collect_list step l w).1.1 with
    | Some b => k b w
    | None =>
        match (collect_list step l w).1.2 with
        | Some e => (Raise e, w)
        | None => (Ret None, w)
        end
    end.
Proof.
  intros Hq Hk. induction l as [|a l IH]; simpl; [done|].
  unfold bind at 1. unfold bind at 1.
  destruct (Hq a w) as [Hw _].
  destruct (step a w) as [[[b|]|e] w1] eqn:E; simpl in *; subst w1.
  - destruct (collect_list step l w) as [[bs err] w2] eqn:E2. simpl in *.
    case_decide as HP.
    + rewrite bool_decide_eq_true_2 by done.
      specialize (Hk b w).
      destruct (k b w) as [[[r|]|e] w3] eqn:Ek; simpl in *; done.
    + rewrite bool_decide_eq_false_2 by done. unfold ret at 1. apply IH.
  - unfold ret at 1. apply IH.
  - done.
Qed.

Lemma collect_list_log_all {A B} (step : A -> M (option B)) l evs w :
  quiet step ->
  collect_list step l (log_all evs w)
  = ((collect_list step l w).1, log_all evs w).
Proof.
  intros Hq.
  destruct (quiet_collect_list step l Hq w) as [_ H2].
  destruct (quiet_collect_list step l Hq (log_all evs w)) as [H1 _].
  specialize (H2 evs).
  destruct (collect_list step l (log_all evs w)) as [r w']. simpl in *. congruence.
Qed.

Lemma collect_queued evs w :
  collect_list (gen_step iter_queued) (queued w) (log_all evs w)
  = ((yielded iter_queued w, gen_error iter_queued w), log_all evs w).
Proof.
  rewrite collect_list_log_all by apply quiet_iter_queued.
  unfold yielded, gen_error, collect. simpl. unfold celery_iter_queued, log.
  rewrite collect_list_log_all by apply quiet_iter_queued. simpl.
  by destruct (collect_list _ _ w) as [[ys err] w'].
Qed.

Lemma collect_active_tasks evs w :
  collect_list (gen_step _iter_active_tasks) (processed w) (log_all evs w)
  = ((yielded _iter_active_tasks w, gen_error _iter_active_tasks w), log_all evs w).
Proof.
  rewrite collect_list_log_all by apply quiet_active_tasks.
  unfold yielded, gen_error, collect. simpl. unfold celery_iter_processed, log.
  rewrite collect_list_log_all by apply quiet_active_tasks. simpl.
  by destruct (collect_list _ _ w) as [[ys err] w'].
Qed.

Lemma collect_done_tasks evs w :
  collect_list (gen_step _iter_done_tasks) (processed w) (log_all evs w)
  = ((yielded _iter_done_tasks w, gen_error _iter_done_tasks w), log_all evs w).
Proof.
  rewrite collect_list_log_all by apply quiet_done_tasks.
  unfold yielded, gen_error, collect. simpl. unfold celery_iter_processed, log.
  rewrite collect_list_log_all by apply quiet_done_tasks. simpl.
  by destruct (collect_list _ _ w) as [[ys err] w'].
Qed.

(** ** [get_result] *)

Lemma load_collected_hit rev info w :
  infofiles w !! rev = Some info -> collected info = true ->
  load_collected rev w = (Ret (Some (result info)), log (EvLoadInfo rev) w).
Proof.
  intros Hinfo Hc. unfold load_collected, try_except, bind, _load_info, ret.
  by rewrite Hinfo, Hc.
Qed.

Lemma load_collected_miss rev w :
  uncollected w rev ->
  load_collected rev w = (Ret None, log (EvLoadInfo rev) w).
Proof.
  intros Hun. unfold load_collected, try_except, bind, _load_info, ret.
  destruct (infofiles w !! rev) as [info|] eqn:Hinfo; [|done].
  by rewrite (Hun info Hinfo).
Qed.

Lemma find_rev_some {B} (f : B -> string) rev (ys : list B) :
  rev ∈ f <$> ys ->
  exists y, List.find (fun b => bool_decide (rev = f b)) ys = Some y.
Proof.
  intros (y & Hy & Hin)%list_elem_of_fmap.
  induction Hin as [y ys|y z ys Hin IH]; simpl.
  - rewrite bool_decide_eq_true_2 by done. eauto.
  - destruct (bool_decide (rev = f z)); eauto.
Qed.

Lemma find_rev_none {B} (f : B -> string) rev (ys : list B) :
  rev ∉ f <$> ys ->
  List.find (fun b => bool_decide (rev = f b)) ys = None.
Proof.
  intros Hno. induction ys as [|z ys IH]; simpl; [done|].
  rewrite fmap_cons, not_elem_of_cons in Hno. destruct Hno as [Hne Hno].
  rewrite bool_decide_eq_false_2 by done. by apply IH.
Qed.

Lemma queued_loop_found entry evs w :
  stash_rev entry ∈ stash_rev <$> yielded iter_queued w ->
  queued_loop entry (log_all evs w)
  = (Raise (DvcException "Experiment has not been started."),
     log_all (evs ++ [EvIterQueued]) w).
Proof.
  intros Hex. unfold queued_loop, for_gen. unfold bind at 1. simpl.
  rewrite log_log_all. unfold pull.
  rewrite (for_list_first (gen_step iter_queued)
             (fun qe => stash_rev entry = stash_rev qe)
             (fun _ => raise (DvcException "Experiment has not been started.")));
    [|apply quiet_iter_queued|done].
  rewrite collect_queued. cbn [fst snd].
  destruct (find_rev_some stash_rev (stash_rev entry) _ Hex) as [y ->]. done.
Qed.

Lemma queued_loop_absent entry evs w :
  stash_rev entry ∉ stash_rev <$> yielded iter_queued w ->
  gen_error iter_queued w = None ->
  queued_loop entry (log_all evs w) = (Ret None, log_all (evs ++ [EvIterQueued]) w).
Proof.
  intros Hno Herr. unfold queued_loop, for_gen. unfold bind at 1. simpl.
  rewrite log_log_all. unfold pull.
  rewrite (for_list_first (gen_step iter_queued)
             (fun qe => stash_rev entry = stash_rev qe)
             (fun _ => raise (DvcException "Experiment has not been started.")));
    [|apply quiet_iter_queued|done].
  rewrite collect_queued. cbn [fst snd].
  rewrite (find_rev_none stash_rev _ _ Hno), Herr. done.
Qed.

Lemma wait_for_task_outcome task_id rev timeout evs w :
  wait_for_task task_id rev timeout (log_all evs w)
  = match backend_get (env w) task_id timeout with
    | WaitTimeout =>
        (Raise (DvcException "Timed out waiting for exp to finish."),
         log_all (evs ++ [EvTaskGet task_id timeout]) w)
    | WaitRaised e =>
        (Raise (wait_error e), log_all (evs ++ [EvTaskGet task_id timeout]) w)
    | WaitDone store =>
        (match store !! rev with
         | Some info => Ret (result info)
         | None => Raise FileNotFoundError
         end,
         log_all (evs ++ [EvTaskGet task_id timeout; EvLoadInfo rev])
                 (after_wait task_id store w))
    end.
Proof.
  unfold wait_for_task, bind, try_except, async_get, raise, _load_info, ret.
  simpl. destruct (backend_get (env w) task_id timeout) as [store| |e]; simpl.
  - destruct (store !! rev); simpl; f_equal;
      unfold after_wait, log, log_all, set_trace, set_ready, set_infofiles;
      simpl; by rewrite <- !app_assoc.
  - f_equal. apply log_log_all.
  - destruct e; simpl; f_equal; apply log_log_all.
Qed.

Lemma active_loop_found entry timeout te evs w :
  List.find (fun te => bool_decide (stash_rev entry = stash_rev te.2))
            (yielded _iter_active_tasks w) = Some te ->
  active_loop entry timeout (log_all evs w)
  = (res <- wait_for_task te.1 (stash_rev entry) timeout ;; ret (Some res))
      (log_all (evs ++ [EvIterProcessed]) w).
Proof.
  intros Hfind. unfold active_loop, for_gen. unfold bind at 1. simpl.
  rewrite log_log_all. unfold pull.
  rewrite (for_list_first (gen_step _iter_active_tasks)
             (fun te : _TaskEntry => stash_rev entry = stash_rev te.2)
             (fun te : _TaskEntry =>
                res <- wait_for_task te.1 (stash_rev entry) timeout ;;
                ret (Some res))).
  - rewrite collect_active_tasks. cbn [fst snd]. by rewrite Hfind.
  - apply quiet_active_tasks.
  - intros b w'. unfold bind, ret.
    by destruct (wait_for_task b.1 (stash_rev entry) timeout w') as [[r|e] w''].
Qed.

Lemma active_loop_absent entry timeout evs w :
  List.find (fun te => bool_decide (stash_rev entry = stash_rev te.2))
            (yielded _iter_active_tasks w) = None ->
  gen_error _iter_active_tasks w = None ->
  active_loop entry timeout (log_all evs w)
  = (Ret None, log_all (evs ++ [EvIterProcessed]) w).
Proof.
  intros Hfind Herr. unfold active_loop, for_gen. unfold bind at 1. simpl.
  rewrite log_log_all. unfold pull.
  rewrite (for_list_first (gen_step _iter_active_tasks)
             (fun te : _TaskEntry => stash_rev entry = stash_rev te.2)
             (fun te : _TaskEntry =>
                res <- wait_for_task te.1 (stash_rev entry) timeout ;;
                ret (Some res))).
  - rewrite collect_active_tasks. cbn [fst snd]. by rewrite Hfind, Herr.
  - apply quiet_active_tasks.
  - intros b w'. unfold bind, ret.
    by destruct (wait_for_task b.1 (stash_rev entry) timeout w') as [[r|e] w''].
Qed.

Lemma scan_broker_unfold entry timeout w :
  scan_broker entry timeout w
  = (queued_loop entry ;;
     found <- active_loop entry timeout ;;
     match found with
     | Some res => ret res
     | None => raise (DvcException "Invalid experiment.")
     end) w.
Proof. reflexivity. Qed.

Lemma scan_broker_not_started entry timeout evs w :
  stash_rev entry ∈ stash_rev <$> yielded iter_queued w ->
  scan_broker entry timeout (log_all evs w)
  = (Raise (DvcException "Experiment has not been started."),
     log_all (evs ++ [EvIterQueued]) w).
Proof.
  intros Hex. rewrite scan_broker_unfold. unfold bind at 1.
  by rewrite queued_loop_found.
Qed.

Lemma scan_broker_active entry timeout te evs w :
  stash_rev entry ∉ stash_rev <$> yielded iter_queued w ->
  gen_error iter_queued w = None ->
  List.find (fun te => bool_decide (stash_rev entry = stash_rev te.2))
            (yielded _iter_active_tasks w) = Some te ->
  scan_broker entry timeout (log_all evs w)
  = wait_for_task te.1 (stash_rev entry) timeout
      (log_all (evs ++ [EvIterQueued; EvIterProcessed]) w).
Proof.
  intros Hno Herr Hfind. rewrite scan_broker_unfold. unfold bind at 1.
  rewrite queued_loop_absent by done. unfold bind at 1.
  rewrite (active_loop_found _ _ te) by done.
  rewrite <- app_assoc. simpl. unfold bind, ret.
  by destruct (wait_for_task _ _ _ _) as [[r|e] w'].
Qed.

Lemma scan_broker_invalid entry timeout evs w :
  stash_rev entry ∉ stash_rev <$> yielded iter_queued w ->
  gen_error iter_queued w = None ->
  List.find (fun te => bool_decide (stash_rev entry = stash_rev te.2))
            (yielded _iter_active_tasks w) = None ->
  gen_error _iter_active_tasks w = None ->
  scan_broker entry timeout (log_all evs w)
  = (Raise (DvcException "Invalid experiment."),
     log_all (evs ++ [EvIterQueued; EvIterProcessed]) w).
Proof.
  intros Hno Herr Hfind Herr2. rewrite scan_broker_unfold. unfold bind at 1.
  rewrite queued_loop_absent by done. unfold bind at 1.
  rewrite active_loop_absent by done.
  by rewrite <- app_assoc.
Qed.

Lemma get_result_uncollected entry timeout w :
  uncollected w (stash_rev entry) ->
  get_result entry timeout w
  = scan_broker entry timeout (log_all [EvLoadInfo (stash_rev entry)] w).
Proof.
  intros Hun. unfold get_result. unfold bind at 1.
  by rewrite load_collected_miss.
Qed.

Lemma get_result_collected entry timeout info w :
  infofiles w !! stash_rev entry = Some info -> collected info = true ->
  get_result entry timeout w
  = (Ret (result info), log_all [EvLoadInfo (stash_rev entry)] w).
Proof.
  intros Hinfo Hc. unfold get_result. unfold bind at 1.
  by rewrite (load_collected_hit _ info).
Qed.

(** C1.  [get_result] makes its four checks in this order: a collected
    info record is returned at once, with no call to the broker; otherwise
    an entry whose revision is among the queued entries is refused as not
    started; otherwise, for the first active task of that revision, the
    backend is waited on with the caller's timeout, a timeout becomes the
    timeout error, and after completion the info record is read again and
    its result returned; otherwise the experiment is invalid.  The traces
    show the order in which the collaborators are consulted. *)
Theorem get_result_checks_in_order (w : World) (entry : QueueEntry)
    (timeout : option pyfloat) :
  let rev := stash_rev entry in
  (forall info,
      infofiles w !! rev = Some info -> collected info = true ->
      get_result entry timeout w = (Ret (result info), log_all [EvLoadInfo rev] w))
  /\ (uncollected w rev ->
      (rev ∈ stash_rev <$> yielded iter_queued w ->
       get_result entry timeout w
       = (Raise (DvcException "Experiment has not been started."),
          log_all [EvLoadInfo rev; EvIterQueued] w))
      /\ (rev ∉ stash_rev <$> yielded iter_queued w ->
          gen_error iter_queued w = None ->
          (forall te,
              List.find (fun te => bool_decide (rev = stash_rev te.2))
                        (yielded _iter_active_tasks w) = Some te ->
              get_result entry timeout w
              = match backend_get (env w) te.1 timeout with
                | WaitTimeout =>
                    (Raise (DvcException "Timed out waiting for exp to finish."),
                     log_all [EvLoadInfo rev; EvIterQueued; EvIterProcessed;
                              EvTaskGet te.1 timeout] w)
                | WaitRaised e =>
                    (Raise (wait_error e),
                     log_all [EvLoadInfo rev; EvIterQueued; EvIterProcessed;
                              EvTaskGet te.1 timeout] w)
                | WaitDone store =>
                    (match store !! rev with
                     | Some info => Ret (result info)
                     | None => Raise FileNotFoundError
                     end,
                     log_all [EvLoadInfo rev; EvIterQueued; EvIterProcessed;
                              EvTaskGet te.1 timeout; EvLoadInfo rev]
                             (after_wait te.1 store w))
                end)
          /\ (List.find (fun te => bool_decide (rev = stash_rev te.2))
                        (yielded _iter_active_tasks w) = None ->
              gen_error _iter_active_tasks w = None ->
              get_result entry timeout w
              = (Raise (DvcException "Invalid experiment."),
                 log_all [EvLoadInfo rev; EvIterQueued; EvIterProcessed] w)))).
Proof.
  intros rev. split; [intros info; apply get_result_collected|].
  intros Hun. split.
  - intros Hex. rewrite get_result_uncollected by done.
    by rewrite scan_broker_not_started.
  - intros Hno Herr. split.
    + intros te Hfind. rewrite get_result_uncollected by done.
      rewrite (scan_broker_active _ _ te) by done.
      rewrite wait_for_task_outcome. simpl.
      by destruct (backend_get (env w) te.1 timeout).
    + intros Hfind Herr2. rewrite get_result_uncollected by done.
      by rewrite scan_broker_invalid.
Qed.

Lemma get_result_checks_in_order_witness :
  get_result Sample.entry_c None Sample.world
  = (Ret (Some Sample.res_c), log_all [EvLoadInfo "aaa111"] Sample.world)
  /\ get_result Sample.entry_a None Sample.world
     = (Raise (DvcException "Experiment has not been started."),
        log_all [EvLoadInfo "abc123"; EvIterQueued] Sample.world)
  /\ get_result Sample.entry_b (Some (mkFloat 5 0)) Sample.world
     = (Raise (DvcException "Timed out waiting for exp to finish."),
        log_all [EvLoadInfo "def456"; EvIterQueued; EvIterProcessed;
                 EvTaskGet "task-2" (Some (mkFloat 5 0))] Sample.world)
  /\ get_result Sample.entry_d None Sample.world
     = (Raise (DvcException "Invalid experiment."),
        log_all [EvLoadInfo "fff000"; EvIterQueued; EvIterProcessed]
                Sample.world).
Proof.
  split; [|split; [|split]].
  - apply (proj1 (get_result_checks_in_order Sample.world Sample.entry_c None)
             (mkExecutorInfo true (Some Sample.res_c))); reflexivity.
  - apply (proj1 (proj2 (get_result_checks_in_order Sample.world Sample.entry_a None)
                    ltac:(intros info H; vm_compute in H; discriminate))).
    refine (bool_decide_unpack _ _). vm_compute. exact I.
  - apply (proj1 (proj2 (proj2 (get_result_checks_in_order Sample.world
                                  Sample.entry_b (Some (mkFloat 5 0)))
                           ltac:(intros info H; vm_compute in H; discriminate))
                    ltac:(refine (bool_decide_unpack _ _); vm_compute; exact I)
                    ltac:(reflexivity))
             ("task-2", Sample.entry_b)).
    reflexivity.
  - apply (proj2 (proj2 (proj2 (get_result_checks_in_order Sample.world
                                  Sample.entry_d None)
                           ltac:(intros info H; vm_compute in H; discriminate))
                    ltac:(refine (bool_decide_unpack _ _); vm_compute; exact I)
                    ltac:(reflexivity))).
    + reflexivity.
    + reflexivity.
Defined.

(** C10.  The collected flag is read on the fast path only: once the entry
    has been found among the active tasks and its task has finished within
    the timeout, [get_result] returns the result field of the info record it
    reads again, whatever that record says about being collected. *)
Theorem get_result_reloaded_ignores_collected (w : World) (entry : QueueEntry)
    (timeout : option pyfloat) (te : _TaskEntry)
    (store : gmap string ExecutorInfo) (info : ExecutorInfo) :
  uncollected w (stash_rev entry) ->
  stash_rev entry ∉ stash_rev <$> yielded iter_queued w ->
  gen_error iter_queued w = None ->
  List.find (fun te => bool_decide (stash_rev entry = stash_rev te.2))
            (yielded _iter_active_tasks w) = Some te ->
  backend_get (env w) te.1 timeout = WaitDone store ->
  store !! stash_rev entry = Some info ->
  (get_result entry timeout w).1 = Ret (result info)
  /\ trace (get_result entry timeout w).2
     = trace w ++ [EvLoadInfo (stash_rev entry); EvIterQueued; EvIterProcessed;
                   EvTaskGet te.1 timeout; EvLoadInfo (stash_rev entry)].
Proof.
  intros Hun Hno Herr Hfind Hget Hinfo.
  rewrite get_result_uncollected by done.
  rewrite (scan_broker_active _ _ te) by done.
  rewrite wait_for_task_outcome, Hget, Hinfo. done.
Qed.

Lemma get_result_reloaded_ignores_collected_witness :
  collected (mkExecutorInfo false (Some Sample.res_b)) = false
  /\ (get_result Sample.entry_b None Sample.world).1 = Ret (Some Sample.res_b)
  /\ trace (get_result Sample.entry_b None Sample.world).2
     = [EvLoadInfo "def456"; EvIterQueued; EvIterProcessed;
        EvTaskGet "task-2" None; EvLoadInfo "def456"].
Proof.
  split; [reflexivity|].
  apply (get_result_reloaded_ignores_collected Sample.world Sample.entry_b None
           ("task-2", Sample.entry_b) Sample.store_after_b
           (mkExecutorInfo false (Some Sample.res_b))).
  - intros info H. vm_compute in H. discriminate.
  - refine (bool_decide_unpack _ _). vm_compute. exact I.
  - reflexivity.
  - reflexivity.
  - reflexivity.
  - reflexivity.
Defined.

(** ** [iter_active] and [iter_done] *)

Lemma quiet_delivered_tasks : quiet (gen_step delivered_tasks).
Proof.
  apply (quiet_pull _iter_processed); [apply quiet_message_step|].
  intros me w. unfold bind, ret, lift. by destruct (header_id me.1).
Qed.

Lemma collect_delivered_tasks evs w :
  collect_list (gen_step delivered_tasks) (processed w) (log_all evs w)
  = ((yielded delivered_tasks w, gen_error delivered_tasks w), log_all evs w).
Proof.
  rewrite collect_list_log_all by apply quiet_delivered_tasks.
  unfold yielded, gen_error, collect. simpl. unfold celery_iter_processed, log.
  rewrite collect_list_log_all by apply quiet_delivered_tasks. simpl.
  by destruct (collect_list _ _ w) as [[ys err] w'].
Qed.

(** A generator that maps [f] over another yields the images. *)
Lemma collect_list_map {A B C} (step : A -> M (option B)) (f : B -> C) l w :
  collect_list (fun a =>
                  ob <- step a ;;
                  match ob with
                  | Some b => ret (Some (f b))
                  | None => ret None
                  end) l w
  = ((f <$> (collect_list step l w).1.1, (collect_list step l w).1.2),
     (collect_list step l w).2).
Proof.
  revert w. induction l as [|a l IH]; intros w; simpl; [done|].
  unfold bind at 1.
  destruct (step a w) as [[[b|]|e] w1]; simpl.
  - unfold ret at 1. rewrite IH.
    by destruct (collect_list step l w1) as [[ys err] w2].
  - unfold ret at 1. apply IH.
  - done.
Qed.

Lemma yielded_iter_active w :
  yielded iter_active w = snd <$> yielded _iter_active_tasks w.
Proof.
  unfold yielded, collect. simpl. unfold celery_iter_processed.
  unfold pull at 1. by rewrite collect_list_map.
Qed.

Lemma yielded_iter_queued w :
  yielded iter_queued w = snd <$> yielded _iter_queued w.
Proof.
  unfold yielded, collect. simpl. unfold celery_iter_queued.
  unfold pull at 1. by rewrite collect_list_map.
Qed.

(** A step that keeps of another step's items those satisfying [P]. *)
Lemma collect_list_filter {A B} (step step' : A -> M (option B)) (P : B -> Prop)
    `{!forall b, Decision (P b)} (l : list A) (w : World) :
  (forall a, (step a w).2 = w) ->
  (forall a, step' a w
             = (match (step a w).1 with
                | Ret (Some b) => if decide (P b) then Ret (Some b) else Ret None
                | r => r
                end, w)) ->
  collect_list step' l w
  = ((filter P (collect_list step l w).1.1, (collect_list step l w).1.2), w).
Proof.
  intros Hkeep Hstep. induction l as [|a l IH]; simpl; [done|].
  rewrite Hstep. specialize (Hkeep a).
  destruct (step a w) as [[[b|]|e] w1]; simpl in *; subst w1.
  - destruct (collect_list step l w) as [[ys err] w2]. simpl in *.
    rewrite filter_cons. case_decide; by rewrite IH.
  - apply IH.
  - done.
Qed.

Lemma delivered_step_keeps m w : (gen_step delivered_tasks m w).2 = w.
Proof. apply quiet_delivered_tasks. Qed.

Lemma active_step_filters m w :
  gen_step _iter_active_tasks m w
  = (match (gen_step delivered_tasks m w).1 with
     | Ret (Some te) => if decide (te.1 ∉ ready w) then Ret (Some te) else Ret None
     | r => r
     end, w).
Proof.
  simpl. unfold pull, bind.
  change (gen_step _iter_processed m w) with (message_step m w).
  unfold message_step, bind.
  case_decide; [done|]. unfold lift, ret, async_ready.
  destruct (decode_entry m) as [e|]; [|done]. simpl.
  destruct (header_id m) as [tid|]; [|done]. simpl.
  destruct (decide (tid ∈ ready w)) as [Hin|Hout].
  - rewrite bool_decide_eq_true_2 by done.
    by rewrite decide_False by (intros H'; by apply H').
  - rewrite bool_decide_eq_false_2 by done. by rewrite decide_True.
Qed.

Lemma done_step_filters m w :
  gen_step _iter_done_tasks m w
  = (match (gen_step delivered_tasks m w).1 with
     | Ret (Some te) => if decide (te.1 ∈ ready w) then Ret (Some te) else Ret None
     | r => r
     end, w).
Proof.
  simpl. unfold pull, bind.
  change (gen_step _iter_processed m w) with (message_step m w).
  unfold message_step, bind.
  case_decide; [done|]. unfold lift, ret, async_ready.
  destruct (decode_entry m) as [e|]; [|done]. simpl.
  destruct (header_id m) as [tid|]; [|done]. simpl.
  destruct (decide (tid ∈ ready w)) as [Hin|Hout].
  - by rewrite bool_decide_eq_true_2.
  - by rewrite bool_decide_eq_false_2.
Qed.

(** The active and the done tasks are the delivered tasks, filtered by the
    backend's terminal status. *)
Lemma tasks_split l w :
  (collect_list (gen_step _iter_active_tasks) l w).1
  = (filter (fun te => te.1 ∉ ready w)
            (collect_list (gen_step delivered_tasks) l w).1.1,
     (collect_list (gen_step delivered_tasks) l w).1.2)
  /\ (collect_list (gen_step _iter_done_tasks) l w).1
     = (filter (fun te => te.1 ∈ ready w)
               (collect_list (gen_step delivered_tasks) l w).1.1,
        (collect_list (gen_step delivered_tasks) l w).1.2).
Proof.
  split.
  - rewrite (collect_list_filter (gen_step delivered_tasks)
               (gen_step _iter_active_tasks) (fun te => te.1 ∉ ready w)); [done| |].
    + intros a. apply delivered_step_keeps.
    + intros a. apply active_step_filters.
  - rewrite (collect_list_filter (gen_step delivered_tasks)
               (gen_step _iter_done_tasks) (fun te => te.1 ∈ ready w)); [done| |].
    + intros a. apply delivered_step_keeps.
    + intros a. apply done_step_filters.
Qed.

Lemma yielded_active_tasks w :
  yielded _iter_active_tasks w
  = filter (fun te => te.1 ∉ ready w) (yielded delivered_tasks w)
  /\ gen_error _iter_active_tasks w = gen_error delivered_tasks w.
Proof.
  pose proof (collect_active_tasks [] w) as Ha.
  pose proof (collect_delivered_tasks [] w) as Ht.
  rewrite log_all_nil in Ha, Ht.
  destruct (tasks_split (processed w) w) as [Hs _].
  rewrite Ha, Ht in Hs. simpl in Hs. by inversion Hs.
Qed.

Lemma yielded_done_tasks w :
  yielded _iter_done_tasks w
  = filter (fun te => te.1 ∈ ready w) (yielded delivered_tasks w)
  /\ gen_error _iter_done_tasks w = gen_error delivered_tasks w.
Proof.
  pose proof (collect_done_tasks [] w) as Ha.
  pose proof (collect_delivered_tasks [] w) as Ht.
  rewrite log_all_nil in Ha, Ht.
  destruct (tasks_split (processed w) w) as [_ Hs].
  rewrite Ha, Ht in Hs. simpl in Hs. by inversion Hs.
Qed.

Lemma delivered_step m w :
  gen_step delivered_tasks m w = (task_of_message m, w).
Proof.
  simpl. unfold pull, bind, task_of_message.
  change (gen_step _iter_processed m w) with (message_step m w).
  unfold message_step, bind. case_decide; [done|]. unfold lift, ret.
  destruct (decode_entry m) as [e|]; [|done]. simpl.
  by destruct (header_id m).
Qed.

(** Where the delivered tasks come from. *)
Lemma delivered_tasks_sound l w te :
  te ∈ (collect_list (gen_step delivered_tasks) l w).1.1 ->
  exists msg, msg ∈ l /\ headers msg !! "task" = Some run_exp_name
              /\ header_id msg = Ret te.1 /\ decode_entry msg = Ret te.2.
Proof.
  induction l as [|m l IH]; cbn [collect_list]; [by intros ?%elem_of_nil|].
  rewrite delivered_step. unfold task_of_message.
  case_decide as Htask.
  - intros (msg & ? & ?)%IH. exists msg. split; [by right|done].
  - destruct (decode_entry m) as [e|] eqn:Hdec; [|by intros ?%elem_of_nil].
    destruct (header_id m) as [tid|] eqn:Hid; [|by intros ?%elem_of_nil].
    destruct (collect_list (gen_step delivered_tasks) l w) as [[ys err] w'].
    simpl in *. intros [->|Hin]%elem_of_cons.
    + exists m. split; [by left|done].
    + destruct (IH Hin) as (msg & ? & ?). exists msg. split; [by right|done].
Qed.

Lemma delivered_tasks_complete l w msg :
  (collect_list (gen_step delivered_tasks) l w).1.2 = None ->
  msg ∈ l -> headers msg !! "task" = Some run_exp_name ->
  exists tid e, header_id msg = Ret tid /\ decode_entry msg = Ret e
                /\ (tid, e) ∈ (collect_list (gen_step delivered_tasks) l w).1.1.
Proof.
  induction l as [|m l IH]; cbn [collect_list]; [by intros _ ?%elem_of_nil|].
  rewrite delivered_step. unfold task_of_message.
  case_decide as Htask.
  - intros Herr [->|Hin]%elem_of_cons Hmsg; [done|]. by apply IH.
  - destruct (decode_entry m) as [e|] eqn:Hdec; [|done].
    destruct (header_id m) as [tid|] eqn:Hid; [|done].
    destruct (collect_list (gen_step delivered_tasks) l w) as [[ys err] w'].
    simpl in *. intros Herr [->|Hin]%elem_of_cons Hmsg.
    + exists tid, e. repeat split; try done. by left.
    + destruct (IH Herr Hin Hmsg) as (tid' & e' & ? & ? & ?).
      exists tid', e'. repeat split; try done. by right.
Qed.

(** C5 (as amended).  For one snapshot of the delivered view and of the
    terminal statuses, every delivered task of this task type is yielded by
    exactly one of [_iter_active_tasks] (task not terminal) and
    [_iter_done_tasks] (task terminal); [iter_active] yields the entries of
    the former; every yielded task comes from a delivered message of this
    task type, and when all such messages decode and carry a task id, each
    of them is yielded. *)
Theorem delivered_tasks_partition (w : World) :
  (forall te, te ∈ yielded _iter_active_tasks w
              <-> te ∈ yielded delivered_tasks w /\ te.1 ∉ ready w)
  /\ (forall te, te ∈ yielded _iter_done_tasks w
                 <-> te ∈ yielded delivered_tasks w /\ te.1 ∈ ready w)
  /\ (forall te, te ∈ yielded delivered_tasks w ->
         (te ∈ yielded _iter_active_tasks w /\ te ∉ yielded _iter_done_tasks w)
         \/ (te ∈ yielded _iter_done_tasks w /\ te ∉ yielded _iter_active_tasks w))
  /\ yielded iter_active w = snd <$> yielded _iter_active_tasks w
  /\ (forall te, te ∈ yielded delivered_tasks w ->
         exists msg, msg ∈ processed w
                     /\ headers msg !! "task" = Some run_exp_name
                     /\ header_id msg = Ret te.1 /\ decode_entry msg = Ret te.2)
  /\ (gen_error delivered_tasks w = None ->
      forall msg, msg ∈ processed w ->
                  headers msg !! "task" = Some run_exp_name ->
                  exists tid e, header_id msg = Ret tid /\ decode_entry msg = Ret e
                                /\ (tid, e) ∈ yielded delivered_tasks w).
Proof.
  destruct (yielded_active_tasks w) as [Ha _].
  destruct (yielded_done_tasks w) as [Hd _].
  pose proof (collect_delivered_tasks [] w) as Ht. rewrite log_all_nil in Ht.
  assert (Hact : forall te, te ∈ yielded _iter_active_tasks w
                  <-> te ∈ yielded delivered_tasks w /\ te.1 ∉ ready w).
  { intros te. rewrite Ha, list_elem_of_filter. tauto. }
  assert (Hdone : forall te, te ∈ yielded _iter_done_tasks w
                  <-> te ∈ yielded delivered_tasks w /\ te.1 ∈ ready w).
  { intros te. rewrite Hd, list_elem_of_filter. tauto. }
  split; [done|]. split; [done|]. split; [|split; [|split]].
  - intros te Hte. destruct (decide (te.1 ∈ ready w)) as [Hin|Hout].
    + right. rewrite Hdone, Hact. tauto.
    + left. rewrite Hdone, Hact. tauto.
  - apply yielded_iter_active.
  - intros te Hte.
    apply (delivered_tasks_sound (processed w) w). by rewrite Ht.
  - intros Herr msg Hmsg Htask.
    pose proof (delivered_tasks_complete (processed w) w msg) as Hc.
    rewrite Ht in Hc. by apply Hc.
Qed.

Lemma delivered_tasks_partition_witness :
  exists tid e,
    header_id (Sample.message run_exp_name "task-2" "tag-2" Sample.entry_b) = Ret tid
    /\ decode_entry (Sample.message run_exp_name "task-2" "tag-2" Sample.entry_b)
       = Ret e
    /\ (tid, e) ∈ yielded delivered_tasks Sample.world.
Proof.
  apply (proj2 (proj2 (proj2 (proj2 (proj2
           (delivered_tasks_partition Sample.world)))))).
  - reflexivity.
  - refine (bool_decide_unpack _ _). vm_compute. exact I.
  - reflexivity.
Defined.

(** C5, the claim as stated: a delivered message of this task type whose
    task is terminal decodes to an entry that neither [iter_active] nor
    [iter_done] yields, because [iter_done] stops with the error of
    [get_result] when no collected info record exists. *)
Lemma iter_done_misses_terminal_entry :
  Sample.message run_exp_name "task-3" "tag-3" Sample.entry_c
    ∈ processed Sample.world_unwritten
  /\ decode_entry (Sample.message run_exp_name "task-3" "tag-3" Sample.entry_c)
     = Ret Sample.entry_c
  /\ header_id (Sample.message run_exp_name "task-3" "tag-3" Sample.entry_c)
     = Ret "task-3"
  /\ "task-3" ∈ ready Sample.world_unwritten
  /\ (Sample.entry_c ∉ yielded iter_active Sample.world_unwritten)
  /\ (Sample.entry_c ∉ fst <$> yielded iter_done Sample.world_unwritten)
  /\ gen_error iter_done Sample.world_unwritten
     = Some (DvcException "Invalid experiment.").
Proof.
  repeat split; try reflexivity;
    refine (bool_decide_unpack _ _); vm_compute; exact I.
Qed.

Lemma quiet_at {A B} (step : A -> M (option B)) a evs w :
  quiet step -> step a (log_all evs w) = ((step a w).1, log_all evs w).
Proof.
  intros Hq. destruct (Hq a w) as [_ H1]. destruct (Hq a (log_all evs w)) as [H2 _].
  specialize (H1 evs). destruct (step a (log_all evs w)). simpl in *. congruence.
Qed.

Lemma get_result_collected_at entry timeout evs w :
  has_collected w (stash_rev entry) ->
  get_result entry timeout (log_all evs w)
  = (Ret (stored_result w (stash_rev entry)),
     log_all (evs ++ [EvLoadInfo (stash_rev entry)]) w).
Proof.
  intros (info & Hinfo & Hc).
  rewrite (get_result_collected _ _ info) by done.
  rewrite log_all_log_all. unfold stored_result. by rewrite Hinfo.
Qed.

Lemma get_result_invalid_at entry timeout evs w :
  uncollected w (stash_rev entry) ->
  stash_rev entry ∉ stash_rev <$> yielded iter_queued w ->
  gen_error iter_queued w = None ->
  List.find (fun te => bool_decide (stash_rev entry = stash_rev te.2))
            (yielded _iter_active_tasks w) = None ->
  gen_error _iter_active_tasks w = None ->
  get_result entry timeout (log_all evs w)
  = (Raise (DvcException "Invalid experiment."),
     log_all (evs ++ [EvLoadInfo (stash_rev entry); EvIterQueued; EvIterProcessed]) w).
Proof.
  intros Hun Hq Hqe Ha Hae.
  rewrite get_result_uncollected by done.
  rewrite log_all_log_all, scan_broker_invalid by done.
  by rewrite <- app_assoc.
Qed.

Lemma iter_done_step_unfold m w' :
  gen_step iter_done m w'
  = (ob <- gen_step _iter_done_tasks m ;;
     match ob with
     | Some te => res <- get_result te.2 None ;; ret (Some (te.2, res))
     | None => ret None
     end) w'.
Proof. reflexivity. Qed.

(** When every done task has a collected record, [iter_done] pairs each
    with its stored result. *)
Lemma iter_done_collect_all l w :
  (forall te, te ∈ (collect_list (gen_step _iter_done_tasks) l w).1.1 ->
              has_collected w (stash_rev te.2)) ->
  forall evs, exists evs',
    collect_list (gen_step iter_done) l (log_all evs w)
    = ((done_pair w <$> (collect_list (gen_step _iter_done_tasks) l w).1.1,
        (collect_list (gen_step _iter_done_tasks) l w).1.2),
       log_all evs' w).
Proof.
  induction l as [|m l IH]; cbn [collect_list]; intros Hall evs; [by eexists|].
  rewrite iter_done_step_unfold. unfold bind at 1.
  rewrite (quiet_at _ m evs w quiet_done_tasks).
  pose proof (quiet_done_tasks m w) as [Hw _].
  destruct (gen_step _iter_done_tasks m w) as [[[te|]|e] w1] eqn:E;
    cbn [fst snd] in *; subst w1.
  - destruct (collect_list (gen_step _iter_done_tasks) l w) as [[ys err] w2] eqn:E2.
    cbn [fst snd] in *.
    unfold bind at 1. rewrite get_result_collected_at by (apply Hall; by left).
    unfold ret at 1.
    destruct (IH (fun te H => Hall te (list_elem_of_further _ _ _ H))
                 (evs ++ [EvLoadInfo (stash_rev te.2)])) as [evs' ->].
    by exists evs'.
  - unfold ret at 1. by apply IH.
  - by eexists.
Qed.

(** [iter_done] stops at the first done task for which [get_result] finds
    neither a collected record nor a queued or active entry. *)
Lemma iter_done_collect_stops l w :
  forall D1 te D2 evs,
    (collect_list (gen_step _iter_done_tasks) l w).1.1 = D1 ++ te :: D2 ->
    (forall x, x ∈ D1 -> has_collected w (stash_rev x.2)) ->
    uncollected w (stash_rev te.2) ->
    stash_rev te.2 ∉ stash_rev <$> yielded iter_queued w ->
    gen_error iter_queued w = None ->
    List.find (fun x => bool_decide (stash_rev te.2 = stash_rev x.2))
              (yielded _iter_active_tasks w) = None ->
    gen_error _iter_active_tasks w = None ->
    exists evs',
      collect_list (gen_step iter_done) l (log_all evs w)
      = ((done_pair w <$> D1, Some (DvcException "Invalid experiment.")),
         log_all evs' w).
Proof.
  induction l as [|m l IH]; cbn [collect_list];
    intros D1 te D2 evs HD Hall Hun Hq Hqe Ha Hae.
  { by destruct D1. }
  rewrite iter_done_step_unfold. unfold bind at 1.
  rewrite (quiet_at _ m evs w quiet_done_tasks).
  pose proof (quiet_done_tasks m w) as [Hw _].
  destruct (gen_step _iter_done_tasks m w) as [[[x|]|e] w1] eqn:E;
    cbn [fst snd] in *; subst w1.
  - destruct (collect_list (gen_step _iter_done_tasks) l w) as [[ys err] w2] eqn:E2.
    cbn [fst snd] in *. unfold bind at 1.
    destruct D1 as [|y D1]; simpl in HD; inversion HD; subst.
    + rewrite get_result_invalid_at by done. by eexists.
    + rewrite get_result_collected_at by (apply Hall; by left).
      unfold ret at 1.
      destruct (IH D1 te D2 (evs ++ [EvLoadInfo (stash_rev y.2)]) eq_refl
                   (fun z H => Hall z (list_elem_of_further _ _ _ H))
                   Hun Hq Hqe Ha Hae) as [evs' ->].
      by exists evs'.
  - unfold ret at 1. by apply (IH D1 te D2).
  - by destruct D1.
Qed.

Lemma collect_iter_done w :
  collect iter_done w
  = collect_list (gen_step iter_done) (processed w) (log_all [EvIterProcessed] w).
Proof. reflexivity. Qed.

(** C6 (as amended).  [iter_done] pairs every done entry with what
    [get_result] returns for it.  When the info record of every done entry
    exists and reports collected, each entry comes with the result stored in
    its record.  At the first done entry whose record is missing or does not
    report collected (the entry being neither queued nor active),
    [get_result] raises the invalid-experiment error and the iteration ends
    with that error, after the pairs of the entries before it. *)
Theorem iter_done_pairs (w : World) :
  ((forall te, te ∈ yielded _iter_done_tasks w ->
               has_collected w (stash_rev te.2)) ->
   yielded iter_done w = done_pair w <$> yielded _iter_done_tasks w
   /\ gen_error iter_done w = gen_error _iter_done_tasks w)
  /\ (forall D1 te D2,
        yielded _iter_done_tasks w = D1 ++ te :: D2 ->
        (forall x, x ∈ D1 -> has_collected w (stash_rev x.2)) ->
        uncollected w (stash_rev te.2) ->
        stash_rev te.2 ∉ stash_rev <$> yielded iter_queued w ->
        gen_error iter_queued w = None ->
        List.find (fun x => bool_decide (stash_rev te.2 = stash_rev x.2))
                  (yielded _iter_active_tasks w) = None ->
        gen_error _iter_active_tasks w = None ->
        yielded iter_done w = done_pair w <$> D1
        /\ gen_error iter_done w = Some (DvcException "Invalid experiment.")).
Proof.
  pose proof (collect_done_tasks [] w) as HD. rewrite log_all_nil in HD.
  split.
  - intros Hall.
    destruct (iter_done_collect_all (processed w) w) with (evs := [EvIterProcessed])
      as [evs' Hc].
    { by rewrite HD. }
    rewrite HD in Hc. unfold yielded at 1, gen_error at 1.
    by rewrite collect_iter_done, Hc.
  - intros D1 te D2 Hsplit Hall Hun Hq Hqe Ha Hae.
    destruct (iter_done_collect_stops (processed w) w D1 te D2 [EvIterProcessed])
      as [evs' Hc]; try done.
    { by rewrite HD. }
    unfold yielded at 1, gen_error at 1.
    by rewrite collect_iter_done, Hc.
Qed.

Lemma iter_done_pairs_witness :
  (yielded iter_done Sample.world = [(Sample.entry_c, Some Sample.res_c)]
   /\ gen_error iter_done Sample.world = None)
  /\ (yielded iter_done Sample.world_uncollected = []
      /\ gen_error iter_done Sample.world_uncollected
         = Some (DvcException "Invalid experiment.")).
Proof.
  split.
  - apply (proj1 (iter_done_pairs Sample.world)).
    intros te Hte. vm_compute in Hte.
    apply list_elem_of_singleton in Hte. subst te.
    exists (mkExecutorInfo true (Some Sample.res_c)). split; reflexivity.
  - apply (proj2 (iter_done_pairs Sample.world_uncollected)
             [] ("task-3", Sample.entry_c) []).
    + reflexivity.
    + intros x Hx. by apply elem_of_nil in Hx.
    + intros info H. vm_compute in H. by inversion H.
    + refine (bool_decide_unpack _ _). vm_compute. exact I.
    + reflexivity.
    + reflexivity.
    + reflexivity.
Defined.

(** C6, the claim as stated: for a done entry whose info record is not
    written, and for one whose record is written but not collected,
    [iter_done] produces no pair at all; the iteration fails with the
    invalid-experiment error of [get_result]. *)
Lemma iter_done_fails_without_collected_record :
  ("task-3", Sample.entry_c) ∈ yielded _iter_done_tasks Sample.world_unwritten
  /\ collect iter_done Sample.world_unwritten
     = (([], Some (DvcException "Invalid experiment.")),
        log_all [EvIterProcessed; EvLoadInfo "aaa111"; EvIterQueued;
                 EvIterProcessed] Sample.world_unwritten)
  /\ infofiles Sample.world_uncollected !! "aaa111"
     = Some (mkExecutorInfo false (Some Sample.res_c))
  /\ collect iter_done Sample.world_uncollected
     = (([], Some (DvcException "Invalid experiment.")),
        log_all [EvIterProcessed; EvLoadInfo "aaa111"; EvIterQueued;
                 EvIterProcessed] Sample.world_uncollected).
Proof.
  split; [refine (bool_decide_unpack _ _); vm_compute; exact I|].
  split; [reflexivity|]. split; reflexivity.
Qed.

(** ** [_remove_revs] *)

Lemma message_step_pure m w : message_step m w = (entry_of_message m, w).
Proof.
  unfold message_step, entry_of_message, bind, lift, ret.
  case_decide; [done|]. by destruct (decode_entry m).
Qed.

Lemma collect_list_pure {A B} (step : A -> M (option B)) (f : A -> Res (option B))
    (l : list A) (w : World) :
  (forall a w', step a w' = (f a, w')) ->
  collect_list step l w = (collect_pure f l, w).
Proof.
  intros Hstep. induction l as [|a l IH]; simpl; [done|].
  rewrite Hstep. destruct (f a) as [[b|]|e]; try done.
  rewrite IH. by destruct (collect_pure f l).
Qed.

Lemma yielded__iter_queued w :
  yielded _iter_queued w = (collect_pure entry_of_message (queued w)).1
  /\ gen_error _iter_queued w = (collect_pure entry_of_message (queued w)).2.
Proof.
  unfold yielded, gen_error, collect. simpl. unfold celery_iter_queued.
  by rewrite (collect_list_pure _ entry_of_message) by apply message_step_pure.
Qed.

Lemma reject_loop_cons revs m l w0 :
  for_list (A:=Message) (m :: l) (pull _iter_queued (reject_matching revs)) w0
  = match entry_of_message m with
    | Raise e => (Raise e, w0)
    | Ret None => for_list (A:=Message) l (pull _iter_queued (reject_matching revs)) w0
    | Ret (Some me) =>
        if decide (stash_rev me.2 ∈ dom revs)
        then match reject_exn (env w0) (delivery_tag me.1) with
             | Some e => (Raise e, log (EvReject (delivery_tag me.1)) w0)
             | None =>
                 for_list (A:=Message) l (pull _iter_queued (reject_matching revs))
                   (log (EvReject (delivery_tag me.1))
                      (set_queued
                         (filter (fun m0 => delivery_tag m0 <> delivery_tag me.1)
                                 (queued w0)) w0))
             end
        else for_list (A:=Message) l (pull _iter_queued (reject_matching revs)) w0
    end.
Proof.
  cbn [for_list]. unfold bind at 1. unfold pull at 1. unfold bind at 1.
  change (gen_step _iter_queued m w0) with (message_step m w0).
  rewrite message_step_pure.
  destruct (entry_of_message m) as [[me|]|e]; try done.
  unfold reject_matching at 1. case_decide; [|done].
  unfold bind at 1. unfold celery_reject.
  by destruct (reject_exn (env w0) (delivery_tag me.1)).
Qed.

(** The rejection pass over a snapshot [l] of the queued view: it only adds
    rejections to the trace, each for a yielded message of a given
    revision, and leaves the stash alone; when every message decodes and no
    rejection is refused, it rejects every such message, in order. *)
Lemma reject_loop revs l :
  forall w0, exists tags,
    trace (for_list (A:=Message) l (pull _iter_queued (reject_matching revs)) w0).2
    = trace w0 ++ (EvReject <$> tags)
    /\ stash_revs (for_list (A:=Message) l (pull _iter_queued (reject_matching revs)) w0).2
       = stash_revs w0
    /\ (forall tag, tag ∈ tags ->
          exists me, me ∈ (collect_pure entry_of_message l).1
                     /\ delivery_tag me.1 = tag /\ stash_rev me.2 ∈ dom revs)
    /\ ((collect_pure entry_of_message l).2 = None ->
        (forall me, me ∈ (collect_pure entry_of_message l).1 ->
                    stash_rev me.2 ∈ dom revs ->
                    reject_exn (env w0) (delivery_tag me.1) = None) ->
        (for_list (A:=Message) l (pull _iter_queued (reject_matching revs)) w0).1 = Ret None
        /\ tags = (fun me => delivery_tag me.1)
                    <$> filter (fun me => stash_rev me.2 ∈ dom revs)
                               (collect_pure entry_of_message l).1).
Proof.
  induction l as [|m l IH]; intros w0.
  { exists []. simpl. rewrite app_nil_r.
    split; [done|]. split; [done|]. split; [|done].
    by intros tag ?%elem_of_nil. }
  rewrite reject_loop_cons. cbn [collect_pure].
  destruct (entry_of_message m) as [[me|]|e] eqn:Hm.
  - case_decide as Hrev.
    + destruct (reject_exn (env w0) (delivery_tag me.1)) as [e|] eqn:Hrej.
      * exists [delivery_tag me.1]. cbn [fst snd].
        split; [done|]. split; [done|]. split.
        -- intros tag ->%list_elem_of_singleton. exists me.
           split; [by left|done].
        -- intros _ Hok. rewrite (Hok me) in Hrej by (done || by left). done.
      * destruct (IH (log (EvReject (delivery_tag me.1))
                        (set_queued
                           (filter (fun m0 => delivery_tag m0 <> delivery_tag me.1)
                                   (queued w0)) w0)))
          as (tags & Htr & Hst & Hin & Hok).
        exists (delivery_tag me.1 :: tags). cbn [fst snd].
        split; [|split; [|split]].
        -- rewrite Htr. simpl. by rewrite <- app_assoc.
        -- by rewrite Hst.
        -- intros tag [->|Htag]%elem_of_cons.
           ++ exists me. split; [by left|done].
           ++ destruct (Hin tag Htag) as (me' & ? & ?). exists me'.
              split; [by right|done].
        -- intros Herr Hall.
           destruct Hok as [Hret Htags]; [done| |].
           { intros me' Hme' Hrev'. apply Hall; [by right|done]. }
           split; [done|].
           rewrite filter_cons, decide_True by done.
           rewrite fmap_cons. by f_equal.
    + destruct (IH w0) as (tags & Htr & Hst & Hin & Hok).
      exists tags. cbn [fst snd].
      split; [done|]. split; [done|]. split.
      * intros tag Htag. destruct (Hin tag Htag) as (me' & ? & ?). exists me'.
        split; [by right|done].
      * intros Herr Hall.
        destruct Hok as [Hret Htags]; [done| |].
        { intros me' Hme' Hrev'. apply Hall; [by right|done]. }
        split; [done|]. by rewrite filter_cons, decide_False by done.
  - apply IH.
  - exists []. simpl. rewrite app_nil_r.
    split; [done|]. split; [done|]. split; [|done].
    by intros tag ?%elem_of_nil.
Qed.

Lemma remove_revs_unfold revs w :
  _remove_revs revs w
  = try_finally
      (fun w0 =>
         match for_list (A:=Message) (queued w0) (pull _iter_queued (reject_matching revs))
                        (log EvIterQueued w0) with
         | (Ret _, w1) => (Ret tt, w1)
         | (Raise e, w1) => (Raise e, w1)
         end)
      (super_remove_revs revs) w.
Proof. reflexivity. Qed.

(** C8.  [_remove_revs] first walks the queued view and rejects messages,
    each of them a message of one of the given revisions, and then removes
    the stash records; the removal happens whatever the outcome of the walk,
    also when decoding a message or rejecting one fails.  When every queued
    message decodes and no rejection is refused, every queued message of a
    given revision is rejected, in the order of the queue, and the call
    succeeds. *)
Theorem remove_revs_rejects_before_removing (w : World)
    (revs : gmap string ExpStashEntry) :
  exists tags,
    trace (_remove_revs revs w).2
    = trace w ++ EvIterQueued :: (EvReject <$> tags) ++ [EvStashRemove (dom revs)]
    /\ stash_revs (_remove_revs revs w).2
       = filter (fun p => p.1 ∉ dom revs) (stash_revs w)
    /\ (forall tag, tag ∈ tags ->
          exists me, me ∈ yielded _iter_queued w
                     /\ delivery_tag me.1 = tag /\ stash_rev me.2 ∈ dom revs)
    /\ (gen_error _iter_queued w = None ->
        (forall me, me ∈ yielded _iter_queued w -> stash_rev me.2 ∈ dom revs ->
                    reject_exn (env w) (delivery_tag me.1) = None) ->
        (_remove_revs revs w).1 = Ret tt
        /\ tags = (fun me => delivery_tag me.1)
                    <$> filter (fun me => stash_rev me.2 ∈ dom revs)
                               (yielded _iter_queued w)).
Proof.
  destruct (yielded__iter_queued w) as [Hy He]. rewrite Hy, He.
  destruct (reject_loop revs (queued w) (log EvIterQueued w))
    as (tags & Htr & Hst & Hin & Hok).
  exists tags. rewrite remove_revs_unfold. unfold try_finally, super_remove_revs.
  destruct (for_list (A:=Message) (queued w) (pull _iter_queued (reject_matching revs))
                     (log EvIterQueued w)) as [r w1].
  cbn [fst snd] in *.
  split; [|split; [|split]].
  - destruct r; simpl; rewrite Htr; simpl; by rewrite <- !app_assoc.
  - destruct r; simpl; by rewrite Hst.
  - done.
  - intros Herr Hall. destruct (Hok Herr Hall) as [-> ->]. done.
Qed.

Lemma remove_revs_rejects_before_removing_witness :
  (_remove_revs Sample.revs_a_b Sample.world_two_queued).1 = Ret tt
  /\ trace (_remove_revs Sample.revs_a_b Sample.world_two_queued).2
     = [EvIterQueued; EvReject "tag-1"; EvReject "tag-5";
        EvStashRemove (dom Sample.revs_a_b)]
  /\ stash_revs (_remove_revs Sample.revs_a_b Sample.world_two_queued).2
     = [("fff000", Sample.stash_entry)].
Proof.
  destruct (remove_revs_rejects_before_removing Sample.world_two_queued
              Sample.revs_a_b) as (tags & Htr & Hst & _ & Hok).
  destruct Hok as [Hret Htags].
  - reflexivity.
  - intros me _ _. reflexivity.
  - split; [exact Hret|]. split.
    + rewrite Htr, Htags. reflexivity.
    + rewrite Hst. reflexivity.
Defined.

(** The two failures of the rejection pass, on sample queues: a rejection
    that the broker refuses, and a message that does not decode.  The stash
    records are removed in both. *)
Lemma remove_revs_on_failure :
  (_remove_revs Sample.revs_a_b Sample.world_refusing).1
  = Raise (OtherError "broker")
  /\ trace (_remove_revs Sample.revs_a_b Sample.world_refusing).2
     = [EvIterQueued; EvReject "tag-1"; EvReject "tag-5";
        EvStashRemove (dom Sample.revs_a_b)]
  /\ stash_revs (_remove_revs Sample.revs_a_b Sample.world_refusing).2
     = [("fff000", Sample.stash_entry)]
  /\ (_remove_revs Sample.revs_a_b Sample.world_undecodable).1 = Raise IndexError
  /\ trace (_remove_revs Sample.revs_a_b Sample.world_undecodable).2
     = [EvIterQueued; EvReject "tag-1"; EvStashRemove (dom Sample.revs_a_b)]
  /\ stash_revs (_remove_revs Sample.revs_a_b Sample.world_undecodable).2 = [].
Proof. repeat split; vm_compute; reflexivity. Qed.

(** ** [WorkspaceQueue] *)

Lemma ws_get_empty w :
  stash_revs w = [] ->
  ws_get w = (Raise (ExpQueueEmptyError "No experiments in the queue."), w).
Proof. intros H. unfold ws_get, bind. by rewrite H. Qed.

Lemma ws_get_cons w rev se rest :
  stash_revs w = (rev, se) :: rest ->
  ws_get w
  = (Ret (stash_queue_entry (env w) rev se,
          mkExecutor (stash_queue_entry (env w) rev se)
                     (executor_is_workspace (env w))),
     log (EvSetupExecutor rev)
         (set_stash_revs (filter (fun p => p.1 <> rev) rest) w)).
Proof.
  intros H. unfold ws_get, bind, ret, setup_executor. rewrite H. simpl.
  rewrite H. rewrite filter_cons. simpl.
  by rewrite decide_False by (intros Hne; by apply Hne).
Qed.

Lemma filter_fresh_key (rev : string) (rest : list (string * ExpStashEntry)) :
  rev ∉ rest.*1 -> filter (fun p => p.1 <> rev) rest = rest.
Proof.
  induction rest as [|p rest IH]; [done|].
  rewrite fmap_cons, not_elem_of_cons. intros [Hne Hrest].
  rewrite filter_cons, decide_True by done. by rewrite IH.
Qed.

Lemma put_all_outcome records :
  forall w,
    put_all records w = (Ret tt, set_stash_revs (stash_revs w ++ records) w).
Proof.
  induction records as [|[rev se] later IH]; intros w.
  { simpl. rewrite app_nil_r. by destruct w. }
  cbn [put_all]. unfold bind at 1. cbn [ws_put _stash_exp]. rewrite IH.
  cbn [stash_revs set_stash_revs]. rewrite <- app_assoc. done.
Qed.

Lemma get_all_outcome stash :
  forall w,
    stash_revs w = stash ->
    NoDup stash.*1 ->
    get_all (length stash) w
    = (Ret ((fun p => stash_queue_entry (env w) p.1 p.2) <$> stash),
       log_all (EvSetupExecutor <$> stash.*1) (set_stash_revs [] w)).
Proof.
  induction stash as [|[rev se] rest IH]; intros w Hstash Hnd.
  { simpl. unfold ret, log_all. rewrite app_nil_r. rewrite <- Hstash.
    by destruct w. }
  apply NoDup_cons in Hnd. destruct Hnd as [Hfresh Hnd].
  cbn [length get_all]. unfold bind at 1.
  rewrite (ws_get_cons w rev se rest) by done.
  rewrite (filter_fresh_key rev rest) by done.
  unfold bind at 1. rewrite IH by done. unfold ret. cbn [fst snd].
  f_equal. unfold log, log_all. simpl. by rewrite <- app_assoc.
Qed.

(** C7.  [get] of the synchronous queue takes the first record of the
    stash, in the stash's order: it returns the entry built from that record
    together with an executor bound to that entry, and the record is off the
    stash afterwards (the removal is the work of [setup_executor]); it fails
    with the empty-queue error exactly when the stash has no record.  The
    first record is the oldest one: a record that [put] adds does not
    change what [get] returns while an older record is there, and after
    any [put]s the [get]s return the records of the stash and then the
    added ones, each in the order in which it was put, until none
    remains. *)
Theorem get_pops_first_record (w : World) :
  (stash_revs w = [] <-> exists msg, (ws_get w).1 = Raise (ExpQueueEmptyError msg))
  /\ (stash_revs w = [] ->
      ws_get w = (Raise (ExpQueueEmptyError "No experiments in the queue."), w))
  /\ (forall rev se rest,
        stash_revs w = (rev, se) :: rest ->
        exists executor,
          (ws_get w).1 = Ret (stash_queue_entry (env w) rev se, executor)
          /\ executor_entry executor = stash_queue_entry (env w) rev se
          /\ stash_revs (ws_get w).2 = filter (fun p => p.1 <> rev) rest
          /\ (rev ∉ rest.*1 -> stash_revs (ws_get w).2 = rest))
  /\ (forall rev se,
        (ws_put rev se w).1 = Ret (stash_queue_entry (env w) rev se)
        /\ (stash_revs w <> [] ->
            (ws_get (ws_put rev se w).2).1 = (ws_get w).1)
        /\ (stash_revs w = [] ->
            exists executor,
              (ws_get (ws_put rev se w).2).1
              = Ret (stash_queue_entry (env w) rev se, executor)))
  /\ (forall records,
        NoDup (stash_revs w ++ records).*1 ->
        (put_all records ;; get_all (length (stash_revs w ++ records))) w
        = (Ret ((fun p => stash_queue_entry (env w) p.1 p.2)
                  <$> (stash_revs w ++ records)),
           log_all (EvSetupExecutor <$> (stash_revs w ++ records).*1)
                   (set_stash_revs [] w))
        /\ (ws_get ((put_all records ;;
                     get_all (length (stash_revs w ++ records))) w).2).1
           = Raise (ExpQueueEmptyError "No experiments in the queue.")).
Proof.
  split; [|split; [|split; [|split]]].
  - split.
    + intros H. rewrite ws_get_empty by done. by eexists.
    + intros [msg H]. destruct (stash_revs w) as [|[rev se] rest] eqn:E; [done|].
      by rewrite (ws_get_cons w rev se rest) in H.
  - apply ws_get_empty.
  - intros rev se rest H. rewrite (ws_get_cons w rev se rest) by done.
    eexists. split; [reflexivity|]. split; [reflexivity|]. split; [reflexivity|].
    intros Hfresh. simpl. by apply filter_fresh_key.
  - intros rev se. split; [done|]. cbn [ws_put _stash_exp snd]. split.
    + intros Hne. destruct (stash_revs w) as [|[rev0 se0] rest] eqn:E; [done|].
      rewrite (ws_get_cons w rev0 se0 rest) by done.
      by rewrite (ws_get_cons _ rev0 se0 (rest ++ [(rev, se)])) by done.
    + intros Hempty. eexists.
      by rewrite (ws_get_cons _ rev se [])
        by (cbn [stash_revs set_stash_revs]; by rewrite Hempty).
  - intros records Hnd. unfold bind at 1 2. rewrite put_all_outcome.
    rewrite (get_all_outcome (stash_revs w ++ records)
               (set_stash_revs (stash_revs w ++ records) w)) by done.
    split; [done|]. by rewrite ws_get_empty.
Qed.

Lemma get_pops_first_record_witness :
  (ws_get (Sample.workspace [])).1
  = Raise (ExpQueueEmptyError "No experiments in the queue.")
  /\ (exists executor,
        (ws_get Sample.killed_then_done).1
        = Ret (stash_queue_entry Sample.workspace_env "abc123" Sample.stash_entry,
               executor)
        /\ executor_entry executor
           = stash_queue_entry Sample.workspace_env "abc123" Sample.stash_entry
        /\ stash_revs (ws_get Sample.killed_then_done).2
           = [("def456", Sample.stash_entry)])
  /\ (ws_get (ws_put "fff000" Sample.stash_entry Sample.killed_then_done).2).1
     = (ws_get Sample.killed_then_done).1
  /\ ((put_all [("fff000", Sample.stash_entry); ("aaa111", Sample.stash_entry)] ;;
       get_all 4) Sample.killed_then_done).1
     = Ret [stash_queue_entry Sample.workspace_env "abc123" Sample.stash_entry;
            stash_queue_entry Sample.workspace_env "def456" Sample.stash_entry;
            stash_queue_entry Sample.workspace_env "fff000" Sample.stash_entry;
            stash_queue_entry Sample.workspace_env "aaa111" Sample.stash_entry].
Proof.
  split; [|split; [|split]].
  - rewrite (proj1 (proj2 (get_pops_first_record (Sample.workspace [])))
               eq_refl).
    reflexivity.
  - destruct (proj1 (proj2 (proj2 (get_pops_first_record Sample.killed_then_done)))
                "abc123" Sample.stash_entry [("def456", Sample.stash_entry)]
                eq_refl) as (executor & Hret & Hbound & _ & Hrest).
    exists executor. split; [exact Hret|]. split; [exact Hbound|].
    apply Hrest. refine (bool_decide_unpack _ _). vm_compute. exact I.
  - apply (proj1 (proj2 (proj1 (proj2 (proj2 (proj2
             (get_pops_first_record Sample.killed_then_done))))
             "fff000" Sample.stash_entry))).
    discriminate.
  - destruct (proj2 (proj2 (proj2 (proj2
                 (get_pops_first_record Sample.killed_then_done))))
                 [("fff000", Sample.stash_entry); ("aaa111", Sample.stash_entry)])
      as [Hall _].
    + refine (bool_decide_unpack _ _). vm_compute. exact I.
    + exact (f_equal fst Hall).
Defined.

Lemma collect_executor_world executor er w :
  (collect_executor executor er w).2 = w.
Proof.
  unfold collect_executor, bind, ret, raise.
  destruct (truthy (exec_branch w)); [|done]. by destruct (truthy (exp_hash er)).
Qed.

Lemma reproduce_entry_world entry executor w :
  (_reproduce_entry entry executor w).2 = after_entry entry executor w.
Proof.
  unfold _reproduce_entry, after_entry, bind, get_infofile_path, try_finally,
    try_except, executor_reproduce, executor_cleanup, emit.
  simpl.
  destruct (run_outcome (executor_run (env w) (stash_rev entry))) as [er|e].
  - destruct (truthy (exp_hash er)); simpl.
    + destruct (ref_info er); simpl; [|same_world].
      unfold bind.
      match goal with
      | |- context [collect_executor ?x ?r ?w0] =>
          pose proof (collect_executor_world x r w0) as Hw;
          destruct (collect_executor x r w0) as [[refs|e] w1]
      end; simpl in *; subst.
      * same_world.
      * destruct e; simpl; same_world.
    + same_world.
  - destruct e; simpl; same_world.
Qed.

Lemma reproduce_entry_raised entry executor w e :
  run_outcome (executor_run (env w) (stash_rev entry)) = Raise e ->
  (_reproduce_entry entry executor w).1
  = match e with
    | CheckpointKilledError => Ret ∅
    | _ =>
        if is_DvcException e then Raise e
        else if is_Exception e then Raise (failed_to_reproduce (stash_rev entry))
        else Raise e
    end.
Proof.
  intros Hrun.
  unfold _reproduce_entry, bind, get_infofile_path, try_finally,
    try_except, executor_reproduce, executor_cleanup, emit.
  simpl. rewrite Hrun. by destruct e.
Qed.

Lemma reproduce_entry_no_hash entry executor w er :
  run_outcome (executor_run (env w) (stash_rev entry)) = Ret er ->
  truthy (exp_hash er) = false ->
  (_reproduce_entry entry executor w).1
  = Raise (failed_to_reproduce (stash_rev entry)).
Proof.
  intros Hrun Hhash.
  unfold _reproduce_entry, bind, get_infofile_path, try_finally,
    try_except, executor_reproduce, executor_cleanup, emit.
  simpl. by rewrite Hrun, Hhash.
Qed.

(** One turn of the loop of [reproduce] on a stash that is not empty. *)
Lemma turn_cons w rev se rest :
  stash_revs w = (rev, se) :: rest ->
  (got <- ws_get ;; _reproduce_entry got.1 got.2) w
  = _reproduce_entry
      (stash_queue_entry (env w) rev se)
      (mkExecutor (stash_queue_entry (env w) rev se) (executor_is_workspace (env w)))
      (log (EvSetupExecutor rev)
           (set_stash_revs (filter (fun p => p.1 <> rev) rest) w)).
Proof. intros H. unfold bind at 1. by rewrite (ws_get_cons w rev se rest). Qed.

Lemma turn_stash w rev se rest :
  stash_revs w = (rev, se) :: rest ->
  stash_revs (after_turn w) = filter (fun p => p.1 <> rev) rest.
Proof.
  intros H. unfold after_turn. rewrite (turn_cons w rev se rest) by done.
  by rewrite reproduce_entry_world.
Qed.

Lemma reproduce_loop_turn fuel results w :
  reproduce_loop (S fuel) results w
  = match (got <- ws_get ;; _reproduce_entry got.1 got.2) w with
    | (Ret entry_results, w1) => reproduce_loop fuel (entry_results ∪ results) w1
    | (Raise e, w1) => Some (on_queue_empty results e, w1)
    end.
Proof. reflexivity. Qed.

(** C2 (as amended).  In one execution of an entry, the executor is always
    cleaned up, last of all; an execution that ends without an experiment
    hash raises the failed-to-reproduce error, and [reproduce] ends with
    that error; an execution killed at a checkpoint is swallowed:
    [_reproduce_entry] returns an empty mapping for that entry, and the loop
    of [reproduce] goes on with the next record of the stash, keeping the
    results it has accumulated. *)
Theorem reproduce_entry_outcomes (w : World) (entry : QueueEntry)
    (executor : Executor) (rev : string) (se : ExpStashEntry)
    (rest : list (string * ExpStashEntry)) (fuel : nat)
    (results : gmap string (gmap string string)) :
  (_reproduce_entry entry executor w).2 = after_entry entry executor w
  /\ last (trace (_reproduce_entry entry executor w).2)
     = Some (EvExecCleanup (stash_rev (executor_entry executor)))
  /\ (forall er,
        run_outcome (executor_run (env w) (stash_rev entry)) = Ret er ->
        truthy (exp_hash er) = false ->
        (_reproduce_entry entry executor w).1
        = Raise (failed_to_reproduce (stash_rev entry)))
  /\ (run_outcome (executor_run (env w) (stash_rev entry))
      = Raise CheckpointKilledError ->
      (_reproduce_entry entry executor w).1 = Ret ∅)
  /\ (stash_revs w = (rev, se) :: rest ->
      (forall er,
          run_outcome (executor_run (env w) rev) = Ret er ->
          truthy (exp_hash er) = false ->
          reproduce_loop (S fuel) results w
          = Some (Raise (failed_to_reproduce rev), after_turn w))
      /\ (run_outcome (executor_run (env w) rev) = Raise CheckpointKilledError ->
          reproduce_loop (S fuel) results w
          = reproduce_loop fuel results (after_turn w)
          /\ stash_revs (after_turn w) = filter (fun p => p.1 <> rev) rest)).
Proof.
  split; [apply reproduce_entry_world|].
  split.
  { rewrite reproduce_entry_world. unfold after_entry, log_all. simpl.
    match goal with
    | |- last (?t ++ [?a; ?b]) = _ =>
        replace (t ++ [a; b]) with ((t ++ [a]) ++ [b])
          by (by rewrite <- app_assoc)
    end.
    apply last_snoc. }
  split; [intros er; apply reproduce_entry_no_hash|].
  split; [intros H; by rewrite (reproduce_entry_raised _ _ _ _ H)|].
  intros Hstash. split.
  - intros er Hrun Hhash. rewrite reproduce_loop_turn. unfold after_turn.
    rewrite (turn_cons w rev se rest) by done.
    pose proof (reproduce_entry_no_hash
                  (stash_queue_entry (env w) rev se)
                  (mkExecutor (stash_queue_entry (env w) rev se)
                              (executor_is_workspace (env w)))
                  (log (EvSetupExecutor rev)
                       (set_stash_revs (filter (fun p => p.1 <> rev) rest) w))
                  er Hrun Hhash) as Hout.
    destruct (_reproduce_entry _ _ _) as [r w1]. simpl in Hout. by subst r.
  - intros Hrun. split; [|by apply (turn_stash w rev se rest)].
    rewrite reproduce_loop_turn. unfold after_turn.
    rewrite (turn_cons w rev se rest) by done.
    pose proof (reproduce_entry_raised
                  (stash_queue_entry (env w) rev se)
                  (mkExecutor (stash_queue_entry (env w) rev se)
                              (executor_is_workspace (env w)))
                  (log (EvSetupExecutor rev)
                       (set_stash_revs (filter (fun p => p.1 <> rev) rest) w))
                  _ Hrun) as Hout.
    destruct (_reproduce_entry _ _ _) as [r w1]. simpl in Hout. subst r. simpl.
    by rewrite (left_id_L ∅ (∪)).
Qed.

Lemma reproduce_entry_outcomes_witness :
  (_reproduce_entry (Sample.entry "fff000" None)
                    (mkExecutor (Sample.entry "fff000" None) true)
                    Sample.no_hash_first).1
  = Raise (DvcException "Failed to reproduce experiment 'fff000'")
  /\ (_reproduce_entry (Sample.entry "abc123" None)
                       (mkExecutor (Sample.entry "abc123" None) true)
                       Sample.killed_then_done).1 = Ret ∅
  /\ reproduce_loop 3 ∅ Sample.no_hash_first
     = Some (Raise (DvcException "Failed to reproduce experiment 'fff000'"),
             after_turn Sample.no_hash_first)
  /\ reproduce_loop 3 ∅ Sample.killed_then_done
     = reproduce_loop 2 ∅ (after_turn Sample.killed_then_done)
  /\ stash_revs (after_turn Sample.killed_then_done)
     = [("def456", Sample.stash_entry)].
Proof.
  split; [|split; [|split]].
  - apply (proj1 (proj2 (proj2
             (reproduce_entry_outcomes Sample.no_hash_first
                (Sample.entry "fff000" None)
                (mkExecutor (Sample.entry "fff000" None) true)
                "fff000" Sample.stash_entry [("def456", Sample.stash_entry)]
                2 ∅)))
             (mkExecutorResult None None false)); reflexivity.
  - apply (proj1 (proj2 (proj2 (proj2
             (reproduce_entry_outcomes Sample.killed_then_done
                (Sample.entry "abc123" None)
                (mkExecutor (Sample.entry "abc123" None) true)
                "abc123" Sample.stash_entry [("def456", Sample.stash_entry)]
                2 ∅))))); reflexivity.
  - apply (proj1 (proj2 (proj2 (proj2 (proj2
             (reproduce_entry_outcomes Sample.no_hash_first
                (Sample.entry "fff000" None)
                (mkExecutor (Sample.entry "fff000" None) true)
                "fff000" Sample.stash_entry [("def456", Sample.stash_entry)]
                2 ∅)))) eq_refl)
             (mkExecutorResult None None false)); reflexivity.
  - apply (proj2 (proj2 (proj2 (proj2 (proj2
             (reproduce_entry_outcomes Sample.killed_then_done
                (Sample.entry "abc123" None)
                (mkExecutor (Sample.entry "abc123" None) true)
                "abc123" Sample.stash_entry [("def456", Sample.stash_entry)]
                2 ∅)))) eq_refl)); reflexivity.
Defined.

(** C2, the claim as stated: a checkpoint kill does not end the loop of
    [reproduce], and does not discard what the call has gathered.  With the
    first experiment killed and the second successful, the second is still
    executed and its result returned; with the successful one first, its
    result survives the kill of the second. *)
Lemma checkpoint_kill_neither_stops_nor_discards :
  fst <$> reproduce 3 Sample.killed_then_done
  = Some (Ret {[ "def456" := {[ "1234567890" := "hash-b" ]} ]})
  /\ (trace ∘ snd) <$> reproduce 3 Sample.killed_then_done
     = Some [EvSetupExecutor "abc123";
             EvExecReproduce "abc123"
               "/repo/.dvc/tmp/exps/run/workspace/workspace.run" false;
             EvExecCleanup "abc123";
             EvSetupExecutor "def456";
             EvExecReproduce "def456"
               "/repo/.dvc/tmp/exps/run/workspace/workspace.run" false;
             EvExecCleanup "def456"]
  /\ fst <$> reproduce 3 Sample.done_then_killed
     = Some (Ret {[ "def456" := {[ "1234567890" := "hash-b" ]} ]}).
Proof. repeat split; vm_compute; reflexivity. Qed.

Lemma filter_length_le (rev : string) (rest : list (string * ExpStashEntry)) :
  length (filter (fun p => p.1 <> rev) rest) <= length rest.
Proof.
  induction rest as [|p rest IH]; [done|].
  rewrite filter_cons. case_decide; simpl; lia.
Qed.

(** With more fuel than stash records, the loop of [reproduce] ends. *)
Lemma reproduce_loop_ends fuel :
  forall results w,
    length (stash_revs w) < fuel -> is_Some (reproduce_loop fuel results w).
Proof.
  induction fuel as [|fuel IH]; intros results w Hlen; [lia|].
  rewrite reproduce_loop_turn.
  destruct (stash_revs w) as [|[rev se] rest] eqn:Hstash.
  - unfold bind. rewrite ws_get_empty by done. by eexists.
  - pose proof (turn_stash w rev se rest Hstash) as Hafter. unfold after_turn in Hafter.
    destruct ((got <- ws_get ;; _reproduce_entry got.1 got.2) w) as [[r|e] w1];
      [|by eexists].
    simpl in Hafter. apply IH. rewrite Hafter.
    pose proof (filter_length_le rev rest). simpl in Hlen. lia.
Qed.

Lemma reproduce_loop_never_empty_error fuel :
  forall results w r w' msg,
    reproduce_loop fuel results w = Some (r, w') ->
    r <> Raise (ExpQueueEmptyError msg).
Proof.
  induction fuel as [|fuel IH]; intros results w r w' msg; [done|].
  rewrite reproduce_loop_turn.
  destruct ((got <- ws_get ;; _reproduce_entry got.1 got.2) w) as [[er|e] w1].
  - apply IH.
  - intros [= <- <-]. by destruct e.
Qed.

Lemma run_result_sound entry executor w r :
  run_result (env w) (stash_rev entry) = Some r ->
  (_reproduce_entry entry executor w).1 = Ret r.
Proof.
  unfold run_result, run_refs.
  unfold _reproduce_entry, bind, get_infofile_path, try_finally,
    try_except, executor_reproduce, executor_cleanup, emit, collect_executor.
  simpl.
  destruct (run_outcome (executor_run (env w) (stash_rev entry))) as [er|e].
  - destruct (truthy (exp_hash er)) eqn:Hhash; simpl; [|done].
    destruct (ref_info er); simpl; [|by intros [= <-]].
    unfold bind, ret. simpl.
    destruct (truthy (run_exec_branch (executor_run (env w) (stash_rev entry))));
      simpl; by intros [= <-].
  - destruct e; simpl; try done. by intros [= <-].
Qed.

(** The loop of [reproduce] over a stash of distinct revisions whose
    executions all return: it gathers the results of the records in the
    order of the stash and returns them when it finds the stash empty. *)
Lemma reproduce_loop_gathers stash :
  forall gathered fuel results w,
    stash_revs w = stash ->
    NoDup stash.*1 ->
    Forall2 (fun p r => run_result (env w) p.1 = Some r) stash gathered ->
    length stash < fuel ->
    exists w',
      reproduce_loop fuel results w = Some (Ret (updated results gathered), w')
      /\ stash_revs w' = [].
Proof.
  induction stash as [|[rev se] rest IH];
    intros gathered fuel results w Hstash Hnd Hall Hfuel.
  { apply Forall2_nil_inv_l in Hall. subst gathered.
    destruct fuel as [|fuel]; [simpl in Hfuel; lia|].
    exists w. rewrite reproduce_loop_turn. unfold bind.
    by rewrite ws_get_empty. }
  apply Forall2_cons_inv_l in Hall.
  destruct Hall as (r & later & Hr & Hall & ->).
  apply NoDup_cons in Hnd. destruct Hnd as [Hfresh Hnd].
  destruct fuel as [|fuel]; [simpl in Hfuel; lia|].
  rewrite reproduce_loop_turn.
  pose proof (turn_stash w rev se rest Hstash) as Hafter.
  rewrite (filter_fresh_key rev rest) in Hafter by done.
  assert (Henv : env (after_turn w) = env w).
  { unfold after_turn. rewrite (turn_cons w rev se rest) by done.
    by rewrite reproduce_entry_world. }
  unfold after_turn in Hafter, Henv.
  rewrite (turn_cons w rev se rest) in Hafter, Henv |- * by done.
  pose proof (run_result_sound
                (stash_queue_entry (env w) rev se)
                (mkExecutor (stash_queue_entry (env w) rev se)
                            (executor_is_workspace (env w)))
                (log (EvSetupExecutor rev)
                     (set_stash_revs (filter (fun p => p.1 <> rev) rest) w))
                r Hr) as Hout.
  destruct (_reproduce_entry _ _ _) as [out w1]. cbn [fst snd] in *. subst out.
  destruct (IH later fuel (r ∪ results) w1) as (w' & Hloop & Hrest);
    [done|done|by rewrite Henv|simpl in Hfuel; lia|].
  exists w'. split; [exact Hloop|exact Hrest].
Qed.

(** C9.  On an empty stash [reproduce] returns the empty mapping and raises
    nothing; whenever the loop finds the stash empty it returns exactly the
    results accumulated so far; no run of [reproduce] ends with the
    empty-queue error; the loop ends once it has more turns than there
    are stash records; and when the executions of the stashed records all
    return, what [reproduce] returns is exactly the results of the records
    gathered in the order of the stash, each added by [results.update] to
    those before it, the stash being empty by then. *)
Theorem reproduce_absorbs_empty_queue (w : World) (fuel : nat)
    (results : gmap string (gmap string string)) :
  (stash_revs w = [] -> reproduce (S fuel) w = Some (Ret ∅, w))
  /\ (stash_revs w = [] ->
      reproduce_loop (S fuel) results w = Some (Ret results, w))
  /\ (forall msg w1,
        ws_get w = (Raise (ExpQueueEmptyError msg), w1) ->
        reproduce_loop (S fuel) results w = Some (Ret results, w1))
  /\ (forall r w' msg,
        reproduce_loop fuel results w = Some (r, w') ->
        r <> Raise (ExpQueueEmptyError msg))
  /\ (length (stash_revs w) < fuel -> is_Some (reproduce_loop fuel results w))
  /\ (forall gathered,
        NoDup (stash_revs w).*1 ->
        Forall2 (fun p r => run_result (env w) p.1 = Some r)
                (stash_revs w) gathered ->
        length (stash_revs w) < fuel ->
        exists w',
          reproduce_loop fuel results w
          = Some (Ret (updated results gathered), w')
          /\ stash_revs w' = []).
Proof.
  assert (Hempty : forall acc, stash_revs w = [] ->
            reproduce_loop (S fuel) acc w = Some (Ret acc, w)).
  { intros acc H. rewrite reproduce_loop_turn. unfold bind.
    by rewrite ws_get_empty. }
  split; [apply Hempty|]. split; [apply Hempty|].
  split.
  { intros msg w1 H. rewrite reproduce_loop_turn. unfold bind. by rewrite H. }
  split; [apply reproduce_loop_never_empty_error|].
  split; [apply reproduce_loop_ends|].
  intros gathered Hnd Hall Hfuel.
  by apply (reproduce_loop_gathers (stash_revs w)).
Qed.

Lemma reproduce_absorbs_empty_queue_witness :
  reproduce 1 (Sample.workspace []) = Some (Ret ∅, Sample.workspace [])
  /\ reproduce_loop 1 {[ "def456" := {[ "1234567890" := "hash-b" ]} ]}
                    (Sample.workspace [])
     = Some (Ret {[ "def456" := {[ "1234567890" := "hash-b" ]} ]},
             Sample.workspace [])
  /\ is_Some (reproduce_loop 3 ∅ Sample.killed_then_done)
  /\ exists w',
      reproduce_loop 3 {[ "aaa111" := ∅ ]} Sample.killed_then_done
      = Some (Ret (updated {[ "aaa111" := ∅ ]}
                           [∅; {[ "def456" := {[ "1234567890" := "hash-b" ]} ]}]),
              w')
      /\ stash_revs w' = [].
Proof.
  split; [|split; [|split]].
  - apply (proj1 (reproduce_absorbs_empty_queue (Sample.workspace []) 0 ∅)).
    reflexivity.
  - apply (proj1 (proj2 (reproduce_absorbs_empty_queue (Sample.workspace []) 0
                           {[ "def456" := {[ "1234567890" := "hash-b" ]} ]}))).
    reflexivity.
  - apply (proj1 (proj2 (proj2 (proj2 (proj2
             (reproduce_absorbs_empty_queue Sample.killed_then_done 3 ∅)))))).
    simpl. lia.
  - apply (proj2 (proj2 (proj2 (proj2 (proj2
             (reproduce_absorbs_empty_queue Sample.killed_then_done 3
                {[ "aaa111" := ∅ ]})))))
             [∅; {[ "def456" := {[ "1234567890" := "hash-b" ]} ]}]).
    + refine (bool_decide_unpack _ _). vm_compute. exact I.
    + repeat constructor.
    + simpl. lia.
Defined.

(** ** Name resolution, [kill] and [logs] *)

Lemma resolve_with_keeps_keys e (d : gmap string (option QueueEntry)) i :
  is_Some (d !! i) -> is_Some (resolve_with e d !! i).
Proof.
  intros [o Ho]. unfold resolve_with. rewrite map_lookup_imap, Ho. by eexists.
Qed.

Lemma scan_list_keeps_keys {A} (step : A -> M (option QueueEntry)) l :
  forall d w d' w' i,
    scan_list step l d w = (Ret d', w') -> is_Some (d !! i) -> is_Some (d' !! i).
Proof.
  induction l as [|a l IH]; intros d w d' w' i; simpl.
  - by intros [= <- <-].
  - destruct (all_resolved d); [by intros [= <- <-]|].
    unfold bind. destruct (step a w) as [[oe|e] w1]; [|done].
    intros H Hi. eapply IH; [exact H|].
    destruct oe; [by apply resolve_with_keeps_keys|done].
Qed.

Lemma scan_sources_keeps_keys gs :
  forall d w d' w' i,
    scan_sources gs d w = (Ret d', w') -> is_Some (d !! i) -> is_Some (d' !! i).
Proof.
  induction gs as [|g gs IH]; intros d w d' w' i; simpl.
  - by intros [= <- <-].
  - unfold bind at 1. unfold scan_gen.
    destruct (all_resolved d).
    + unfold ret at 1. apply IH.
    + unfold bind at 1. destruct (gen_open g w) as [[l|e] w1]; [|done].
      destruct (scan_list (gen_step g) l d w1) as [[d1|e] w2] eqn:E; [|done].
      intros H Hi. eapply IH; [exact H|]. by eapply scan_list_keeps_keys.
Qed.

(** Every identifier asked for is a key of the mapping that
    [match_queue_entry_by_name] returns. *)
Lemma match_keeps_names exp_names sources w d w' i :
  match_queue_entry_by_name exp_names sources w = (Ret d, w') ->
  i ∈ exp_names -> is_Some (d !! i).
Proof.
  intros H Hi. eapply scan_sources_keeps_keys; [exact H|].
  rewrite lookup_gset_to_gmap, option_guard_True by done. by eexists.
Qed.

(** C3, where the code departs from the claim.  Whenever the identifier is
    not resolved against the active and done entries, [logs] raises the
    queued-but-not-started error as soon as the second resolution returns,
    whether or not the identifier is resolved against the queued entries:
    the identifier is always a key of the returned mapping, so the
    unresolved-names error that follows in the code is never reached. *)
Theorem logs_unresolved_reports_queued (w : World) (rev : string)
    (encoding : option string) (follow_logs : bool)
    (d d2 : gmap string (option QueueEntry)) (w1 w2 : World) :
  match_queue_entry_by_name {[rev]} [iter_active; gen_map fst iter_done] w
  = (Ret d, w1) ->
  mjoin (d !! rev) = None ->
  match_queue_entry_by_name {[rev]} [iter_queued] w1 = (Ret d2, w2) ->
  logs rev encoding follow_logs w
  = (Raise (DvcException
              ("Experiment '" ++ rev ++ "' is in queue but has not been started")),
     w2).
Proof.
  intros H1 Hnone H2. unfold logs. unfold bind at 1. rewrite H1, Hnone.
  unfold bind at 1. rewrite H2.
  rewrite decide_True; [done|].
  eapply match_keeps_names; [exact H2|]. by apply elem_of_singleton.
Qed.

Lemma logs_unresolved_reports_queued_witness :
  yielded iter_queued Sample.idle = []
  /\ yielded iter_active Sample.idle = []
  /\ yielded iter_done Sample.idle = []
  /\ logs "deadbeef" None false Sample.idle
     = (Raise (DvcException
                 "Experiment 'deadbeef' is in queue but has not been started"),
        log_all [EvIterProcessed; EvIterProcessed; EvIterQueued] Sample.idle).
Proof.
  split; [reflexivity|]. split; [reflexivity|]. split; [reflexivity|].
  apply (logs_unresolved_reports_queued Sample.idle "deadbeef" None false
           {[ "deadbeef" := None ]} {[ "deadbeef" := None ]}
           (log_all [EvIterProcessed; EvIterProcessed] Sample.idle)).
  - vm_compute. reflexivity.
  - reflexivity.
  - vm_compute. reflexivity.
Defined.

Lemma resolve_all_nil (d : gmap string (option QueueEntry)) : resolve_all [] d = d.
Proof.
  apply map_eq. intros i. unfold resolve_all. rewrite map_lookup_imap.
  destruct (d !! i) as [[x|]|]; done.
Qed.

Lemma resolve_all_resolved ys (d : gmap string (option QueueEntry)) :
  all_resolved d = true -> resolve_all ys d = d.
Proof.
  intros Hall%bool_decide_eq_true. apply map_eq. intros i.
  unfold resolve_all. rewrite map_lookup_imap.
  destruct (d !! i) as [o|] eqn:Hi; [|done]. simpl.
  destruct (Hall i o Hi) as [x ->]. done.
Qed.

Lemma resolve_all_cons e ys (d : gmap string (option QueueEntry)) :
  resolve_all ys (resolve_with e d) = resolve_all (e :: ys) d.
Proof.
  apply map_eq. intros i. unfold resolve_all, resolve_with.
  rewrite !map_lookup_imap. destruct (d !! i) as [[x|]|]; simpl; try done.
  by destruct (entry_matches i e).
Qed.

(** Scanning a quiet source that ends without an exception resolves every
    identifier against the entries of the source. *)
Lemma scan_list_quiet {A} (step : A -> M (option QueueEntry)) (l : list A) w :
  quiet step ->
  (collect_list step l w).1.2 = None ->
  forall d, scan_list step l d w
            = (Ret (resolve_all (collect_list step l w).1.1 d), w).
Proof.
  intros Hq. induction l as [|a l IH]; intros Herr d; simpl in *.
  { by rewrite resolve_all_nil. }
  destruct (Hq a w) as [Hw _].
  destruct (all_resolved d) eqn:Hall.
  { by rewrite resolve_all_resolved. }
  unfold bind. destruct (step a w) as [[[e|]|e] w1]; simpl in *; subst w1.
  - destruct (collect_list step l w) as [[ys err] w2]. simpl in *.
    rewrite IH by done. by rewrite resolve_all_cons.
  - by apply IH.
  - done.
Qed.

Lemma all_resolved_initial (exp_names : gset string) :
  all_resolved (gset_to_gmap None exp_names) = bool_decide (exp_names = ∅).
Proof.
  unfold all_resolved. apply bool_decide_ext. split.
  - intros Hall. apply set_eq. intros i. split; [|by intros ?%not_elem_of_empty].
    intros Hi. destruct (Hall i None) as [x Hx]; [|done].
    by rewrite lookup_gset_to_gmap, option_guard_True.
  - intros ->. rewrite gset_to_gmap_empty. apply map_Forall_empty.
Qed.

Lemma collect_iter_active evs w :
  collect_list (gen_step iter_active) (processed w) (log_all evs w)
  = ((yielded iter_active w, gen_error iter_active w), log_all evs w).
Proof.
  rewrite collect_list_log_all by apply quiet_iter_active.
  unfold yielded, gen_error, collect. simpl. unfold celery_iter_processed, log.
  rewrite collect_list_log_all by apply quiet_iter_active. simpl.
  by destruct (collect_list _ _ w) as [[ys err] w'].
Qed.

(** Resolution against the active entries alone. *)
Lemma match_active exp_names w :
  gen_error iter_active w = None ->
  match_queue_entry_by_name exp_names [iter_active] w
  = (Ret (resolve_all (yielded iter_active w) (gset_to_gmap None exp_names)),
     if bool_decide (exp_names = ∅) then w else log_all [EvIterProcessed] w).
Proof.
  intros Herr. unfold match_queue_entry_by_name. cbn [scan_sources].
  unfold bind at 1. unfold scan_gen. rewrite all_resolved_initial.
  destruct (bool_decide (exp_names = ∅)) eqn:Hempty.
  - unfold ret. f_equal. f_equal.
    rewrite resolve_all_resolved; [done|]. by rewrite all_resolved_initial.
  - unfold bind at 1.
    change (gen_open iter_active w)
      with (Ret (processed w), log_all [EvIterProcessed] w).
    cbv beta iota.
    pose proof (collect_iter_active [EvIterProcessed] w) as Hc.
    rewrite (scan_list_quiet (gen_step iter_active)) by
      (apply quiet_iter_active || by rewrite Hc).
    by rewrite Hc.
Qed.

Lemma lookup_resolved exp_names w ident :
  resolve_all (yielded iter_active w) (gset_to_gmap None exp_names) !! ident
  = if decide (ident ∈ exp_names) then Some (resolve_active w ident) else None.
Proof.
  unfold resolve_all. rewrite map_lookup_imap, lookup_gset_to_gmap.
  case_decide.
  - by rewrite option_guard_True.
  - by rewrite option_guard_False.
Qed.

Lemma split_names_acc items :
  forall m k,
    fold_left (fun acc item =>
                 match item.2 with
                 | None => (acc.1 ++ [item.1], acc.2)
                 | Some queue_entry => (acc.1, set_add queue_entry acc.2)
                 end) items (m, k)
    = (m ++ (fst <$> filter (fun it : string * option QueueEntry => it.2 = None) items),
       kill_set items k).
Proof.
  induction items as [|[ident o] items IH]; intros m k; simpl.
  { by rewrite app_nil_r. }
  rewrite filter_cons. destruct o as [e|]; simpl.
  - by rewrite IH.
  - rewrite IH. by rewrite <- app_assoc.
Qed.

Lemma split_names_spec items :
  split_names items
  = (fst <$> filter (fun it : string * option QueueEntry => it.2 = None) items,
     kill_set items []).
Proof. unfold split_names. by rewrite split_names_acc. Qed.

Lemma set_add_revs e k r :
  r ∈ stash_rev <$> set_add e k <-> r ∈ stash_rev <$> k \/ r = stash_rev e.
Proof.
  unfold set_add. case_decide as Hin.
  - split; [by left|]. intros [?| ->]; done.
  - rewrite fmap_app, elem_of_app. simpl. rewrite list_elem_of_singleton. done.
Qed.

Lemma set_add_NoDup e k :
  NoDup (stash_rev <$> k) -> NoDup (stash_rev <$> set_add e k).
Proof.
  intros Hk. unfold set_add. case_decide as Hin; [done|].
  rewrite fmap_app. apply NoDup_app. split; [done|]. split.
  - intros x Hx [->|[]%elem_of_nil]%elem_of_cons. done.
  - apply NoDup_singleton.
Qed.

Lemma kill_set_spec items :
  forall k,
    NoDup (stash_rev <$> k) ->
    NoDup (stash_rev <$> kill_set items k)
    /\ forall r, r ∈ stash_rev <$> kill_set items k
                 <-> r ∈ stash_rev <$> k
                     \/ exists ident e, (ident, Some e) ∈ items /\ stash_rev e = r.
Proof.
  induction items as [|[ident o] items IH]; intros k Hk; simpl.
  { split; [done|]. intros r. split; [by left|].
    intros [?|(? & ? & []%elem_of_nil & _)]. done. }
  destruct o as [e|]; simpl.
  - destruct (IH (set_add e k) (set_add_NoDup e k Hk)) as [Hnd Hin].
    split; [done|]. intros r. rewrite Hin, set_add_revs. split.
    + intros [[?| ->]|(i & e' & Hi & He)].
      * by left.
      * right. exists ident, e. split; [by left|done].
      * right. exists i, e'. split; [by right|done].
    + intros [?|(i & e' & [[= -> ->]|Hi]%elem_of_cons & He)].
      * left. by left.
      * left. by right.
      * right. by exists i, e'.
  - destruct (IH k Hk) as [Hnd Hin]. split; [done|].
    intros r. rewrite Hin. split.
    + intros [?|(i & e' & Hi & He)]; [by left|].
      right. exists i, e'. split; [by right|done].
    + intros [?|(i & e' & [[=]|Hi]%elem_of_cons & He)]; [by left|].
      right. by exists i, e'.
Qed.

Lemma kill_loop_cons e l w0 :
  kill_loop (e :: l) w0
  = match kill_exn (env w0) (stash_rev e) with
    | Some x => (Raise x, log_all [EvProcKill (stash_rev e)] w0)
    | None => kill_loop l (log_all [EvProcKill (stash_rev e)] w0)
    end.
Proof.
  unfold kill_loop. cbn [for_list]. unfold bind at 1. unfold bind at 1.
  unfold proc_kill. by destruct (kill_exn (env w0) (stash_rev e)).
Qed.

(** The kills that [kill] issues are those of a prefix of the entries to
    kill, and of all of them when the process manager raises nothing. *)
Lemma kill_loop_trace to_kill :
  forall w0, exists attempted,
    attempted `prefix_of` (stash_rev <$> to_kill)
    /\ (kill_loop to_kill w0).2 = log_all (EvProcKill <$> attempted) w0
    /\ ((forall r, r ∈ stash_rev <$> to_kill -> kill_exn (env w0) r = None) ->
        attempted = stash_rev <$> to_kill /\ (kill_loop to_kill w0).1 = Ret None).
Proof.
  induction to_kill as [|e l IH]; intros w0.
  { exists []. split; [done|]. split; [|done]. simpl. by rewrite log_all_nil. }
  rewrite kill_loop_cons.
  destruct (kill_exn (env w0) (stash_rev e)) as [x|] eqn:Hk.
  - exists [stash_rev e]. split; [|split].
    + rewrite fmap_cons. apply prefix_cons, prefix_nil.
    + done.
    + intros Hall. rewrite Hall in Hk; [done|]. rewrite fmap_cons. by left.
  - destruct (IH (log_all [EvProcKill (stash_rev e)] w0)) as (att & Hpre & Hw & Hok).
    exists (stash_rev e :: att). split; [|split].
    + rewrite fmap_cons. by apply prefix_cons.
    + rewrite Hw, log_all_log_all. done.
    + intros Hall. destruct Hok as [-> Hret].
      { intros r Hr. apply Hall. rewrite fmap_cons. by right. }
      done.
Qed.

Lemma kill_unfold revs w :
  kill revs w
  = (name_dict <- match_queue_entry_by_name (list_to_set revs) [iter_active] ;;
     match (split_names (map_to_list name_dict)).1 with
     | _ :: _ =>
         raise (UnresolvedQueueExpNamesError
                  (split_names (map_to_list name_dict)).1)
     | [] => kill_loop (split_names (map_to_list name_dict)).2 ;; ret tt
     end) w.
Proof. reflexivity. Qed.

Lemma items_of_names (revs : list string) w ident o :
  (ident, o) ∈ map_to_list
      (resolve_all (yielded iter_active w) (gset_to_gmap None (list_to_set revs)))
  <-> ident ∈ revs /\ o = resolve_active w ident.
Proof.
  rewrite elem_of_map_to_list, lookup_resolved.
  case_decide as Hin; rewrite elem_of_list_to_set in Hin.
  - split; [by intros [= <-]|by intros [_ ->]].
  - split; [done|by intros [? _]].
Qed.

(** C4.  [kill] resolves the identifiers against the active entries only.
    If some identifier is unresolved, the call raises one unresolved-names
    error that lists exactly the unresolved identifiers, each once, and the
    process manager is not called.  If all resolve, the process manager is
    asked to kill the process of each resolved entry's stash revision, once
    per revision; a kill that raises ends the call, so that the kills issued
    are a prefix of them, and all of them when no kill raises. *)
Theorem kill_reports_misses_before_killing (w : World) (revs : list string) :
  gen_error iter_active w = None ->
  exists pre,
    (pre = [] \/ pre = [EvIterProcessed])
    /\ ((exists ident, ident ∈ revs /\ resolve_active w ident = None) ->
        exists missing,
          kill revs w
          = (Raise (UnresolvedQueueExpNamesError missing), log_all pre w)
          /\ NoDup missing
          /\ forall ident, ident ∈ missing
                           <-> ident ∈ revs /\ resolve_active w ident = None)
    /\ ((forall ident, ident ∈ revs -> is_Some (resolve_active w ident)) ->
        exists kills attempted,
          NoDup kills
          /\ (forall r, r ∈ kills
                        <-> exists ident e, ident ∈ revs
                                            /\ resolve_active w ident = Some e
                                            /\ stash_rev e = r)
          /\ attempted `prefix_of` kills
          /\ (kill revs w).2 = log_all (pre ++ (EvProcKill <$> attempted)) w
          /\ ((forall r, r ∈ kills -> kill_exn (env w) r = None) ->
              attempted = kills /\ (kill revs w).1 = Ret tt)).
Proof.
  intros Herr.
  set (d := resolve_all (yielded iter_active w)
                        (gset_to_gmap None (list_to_set revs))).
  set (items := map_to_list d).
  set (pre := if bool_decide (list_to_set revs = (∅ : gset string))
              then [] else [EvIterProcessed]).
  assert (Hmatch : match_queue_entry_by_name (list_to_set revs) [iter_active] w
                   = (Ret d, log_all pre w)).
  { rewrite match_active by done. unfold pre.
    destruct (bool_decide _); [by rewrite log_all_nil|done]. }
  assert (Hkill : kill revs w
                  = match (split_names items).1 with
                    | _ :: _ =>
                        (Raise (UnresolvedQueueExpNamesError (split_names items).1),
                         log_all pre w)
                    | [] => (kill_loop (split_names items).2 ;; ret tt) (log_all pre w)
                    end).
  { rewrite kill_unfold. unfold bind at 1. rewrite Hmatch. fold items.
    by destruct (split_names items).1. }
  assert (Hmissing : forall ident,
             ident ∈ (split_names items).1
             <-> ident ∈ revs /\ resolve_active w ident = None).
  { intros ident. rewrite split_names_spec. simpl.
    rewrite list_elem_of_fmap. split.
    - intros ([i o] & -> & [Ho Hin]%list_elem_of_filter). simpl in *. subst o.
      apply items_of_names in Hin. destruct Hin as [? ?]. done.
    - intros [Hin Hnone]. exists (ident, None). split; [done|].
      apply list_elem_of_filter. split; [done|].
      apply items_of_names. done. }
  exists pre. split.
  { unfold pre. destruct (bool_decide _); [by left|by right]. }
  split.
  - intros (ident & Hin & Hnone). exists (split_names items).1.
    split; [|split; [|done]].
    + rewrite Hkill.
      destruct (split_names items).1 as [|x l]; [|done].
      assert (H : ident ∈ @nil string) by (by apply Hmissing).
      by apply elem_of_nil in H.
    + rewrite split_names_spec. simpl.
      eapply sublist_NoDup; [apply (NoDup_fst_map_to_list d)|].
      apply fmap_sublist, sublist_filter.
  - intros Hall.
    assert (Hnil : (split_names items).1 = []).
    { destruct (split_names items).1 as [|x l]; [done|].
      destruct (proj1 (Hmissing x)) as [Hin Hnone]; [by left|].
      destruct (Hall x Hin) as [e He]. congruence. }
    rewrite Hkill, Hnil.
    set (to_kill := (split_names items).2).
    destruct (kill_set_spec items [] (NoDup_nil_2)) as [Hnd Hin].
    assert (Hto : to_kill = kill_set items []).
    { unfold to_kill. by rewrite split_names_spec. }
    destruct (kill_loop_trace to_kill (log_all pre w)) as (att & Hpre & Hw & Hok).
    exists (stash_rev <$> to_kill), att.
    split; [by rewrite Hto|]. split; [|split; [done|split]].
    + intros r. rewrite Hto, Hin. split.
      * intros [[]%elem_of_nil|(ident & e & Hi & He)].
        apply items_of_names in Hi. destruct Hi as [Hi Hr].
        exists ident, e. done.
      * intros (ident & e & Hi & Hr & He). right. exists ident, e.
        split; [|done]. apply items_of_names. done.
    + unfold bind.
      destruct (kill_loop to_kill (log_all pre w)) as [[r|e] w1] eqn:E;
        simpl in *; subst w1; by rewrite log_all_log_all.
    + intros Hnone. destruct (Hok Hnone) as [-> Hret]. split; [done|].
      unfold bind. destruct (kill_loop to_kill (log_all pre w)) as [[r|e] w1];
        simpl in *; congruence.
Qed.

Lemma kill_reports_misses_before_killing_witness :
  (exists missing,
      kill ["def"; "zzz"] Sample.world
      = (Raise (UnresolvedQueueExpNamesError missing),
         log_all [EvIterProcessed] Sample.world)
      /\ forall ident, ident ∈ missing
                       <-> ident ∈ ["def"; "zzz"]
                           /\ resolve_active Sample.world ident = None)
  /\ (kill ["def"; "exp-b"] Sample.world).1 = Ret tt.
Proof.
  split.
  - destruct (kill_reports_misses_before_killing Sample.world ["def"; "zzz"]
                eq_refl) as (pre & Hpre & Hmiss & _).
    destruct Hmiss as (missing & Hkill & _ & Hin).
    { exists "zzz". split; [|reflexivity].
      refine (bool_decide_unpack _ _). vm_compute. exact I. }
    exists missing. split; [|exact Hin].
    rewrite Hkill. f_equal.
    destruct Hpre as [-> | ->]; [|reflexivity].
    rewrite log_all_nil in Hkill. apply (f_equal snd) in Hkill.
    apply (f_equal trace) in Hkill. vm_compute in Hkill. discriminate.
  - destruct (kill_reports_misses_before_killing Sample.world ["def"; "exp-b"]
                eq_refl) as (pre & _ & _ & Hall).
    destruct Hall as (kills & att & _ & _ & _ & _ & Hok).
    { intros ident [->|[->|[]%elem_of_nil]%elem_of_cons]%elem_of_cons;
        vm_compute; by eexists. }
    apply Hok. intros r _. reflexivity.
Defined.

(** On the sample broker: with one identifier unresolved nothing is killed,
    and two identifiers of the same active entry cause one kill. *)
Lemma kill_examples :
  kill ["def"; "zzz"] Sample.world
  = (Raise (UnresolvedQueueExpNamesError ["zzz"]),
     log_all [EvIterProcessed] Sample.world)
  /\ kill ["def"; "exp-b"] Sample.world
     = (Ret tt, log_all [EvIterProcessed; EvProcKill "def456"] Sample.world).
Proof. split; vm_compute; reflexivity. Qed.

(** * Further properties *)

(** ** [get_result] *)

(** A collected result can be asked for again and again: every call
    returns the stored result and adds one load of the info record, and
    nothing else, to the trace. *)
Theorem get_result_repeatable (w : World) (entry : QueueEntry)
    (timeout timeout' : option pyfloat) (info : ExecutorInfo) :
  infofiles w !! stash_rev entry = Some info ->
  collected info = true ->
  (get_result entry timeout w).1 = Ret (result info)
  /\ get_result entry timeout' (get_result entry timeout w).2
     = (Ret (result info),
        log_all [EvLoadInfo (stash_rev entry); EvLoadInfo (stash_rev entry)] w).
Proof.
  intros Hinfo Hc. rewrite (get_result_collected _ _ info) by done.
  split; [done|]. cbn [snd].
  rewrite (get_result_collected _ _ info) by done.
  by rewrite log_all_log_all.
Qed.

Lemma get_result_repeatable_witness :
  (get_result Sample.entry_c None Sample.world).1 = Ret (Some Sample.res_c)
  /\ get_result Sample.entry_c (Some (mkFloat 1 0))
       (get_result Sample.entry_c None Sample.world).2
     = (Ret (Some Sample.res_c),
        log_all [EvLoadInfo "aaa111"; EvLoadInfo "aaa111"] Sample.world).
Proof.
  apply (get_result_repeatable Sample.world Sample.entry_c None
           (Some (mkFloat 1 0)) (mkExecutorInfo true (Some Sample.res_c)));
    reflexivity.
Defined.

(** Once a wait has ended with a collected info record in place, the next
    call for the same entry is answered from the record, without a call to
    the broker or the backend. *)
Theorem get_result_after_wait_is_fast (w : World) (entry : QueueEntry)
    (timeout timeout' : option pyfloat) (te : _TaskEntry)
    (store : gmap string ExecutorInfo) (info : ExecutorInfo) :
  uncollected w (stash_rev entry) ->
  stash_rev entry ∉ stash_rev <$> yielded iter_queued w ->
  gen_error iter_queued w = None ->
  List.find (fun te => bool_decide (stash_rev entry = stash_rev te.2))
            (yielded _iter_active_tasks w) = Some te ->
  backend_get (env w) te.1 timeout = WaitDone store ->
  store !! stash_rev entry = Some info ->
  collected info = true ->
  (get_result entry timeout w).1 = Ret (result info)
  /\ get_result entry timeout' (get_result entry timeout w).2
     = (Ret (result info),
        log (EvLoadInfo (stash_rev entry)) (get_result entry timeout w).2).
Proof.
  intros Hun Hno Herr Hfind Hget Hinfo Hc.
  rewrite get_result_uncollected by done.
  rewrite (scan_broker_active _ _ te) by done.
  rewrite wait_for_task_outcome, Hget, Hinfo. split; [done|]. cbn [snd].
  by rewrite (get_result_collected _ _ info).
Qed.

Lemma get_result_after_wait_is_fast_witness :
  (get_result Sample.entry_b None Cases.finishing).1 = Ret (Some Sample.res_b)
  /\ get_result Sample.entry_b None (get_result Sample.entry_b None Cases.finishing).2
     = (Ret (Some Sample.res_b),
        log (EvLoadInfo "def456")
            (get_result Sample.entry_b None Cases.finishing).2).
Proof.
  apply (get_result_after_wait_is_fast Cases.finishing Sample.entry_b None None
           ("task-2", Sample.entry_b) Cases.store_collected
           (mkExecutorInfo true (Some Sample.res_b))).
  - intros info H. vm_compute in H. discriminate.
  - refine (bool_decide_unpack _ _). vm_compute. exact I.
  - reflexivity.
  - reflexivity.
  - reflexivity.
  - reflexivity.
  - reflexivity.
Defined.

Lemma load_collected_world rev w :
  exists o, load_collected rev w = (Ret o, log_all [EvLoadInfo rev] w).
Proof.
  unfold load_collected, try_except, bind, _load_info, ret.
  destruct (infofiles w !! rev) as [info|]; [|by eexists].
  destruct (collected info); by eexists.
Qed.

Lemma queued_loop_outcome entry evs w :
  queued_loop entry (log_all evs w)
  = (match List.find (fun qe => bool_decide (stash_rev entry = stash_rev qe))
                     (yielded iter_queued w) with
     | Some _ => Raise (DvcException "Experiment has not been started.")
     | None =>
         match gen_error iter_queued w with
         | Some e => Raise e
         | None => Ret None
         end
     end,
     log_all (evs ++ [EvIterQueued]) w).
Proof.
  unfold queued_loop, for_gen. unfold bind at 1. simpl.
  rewrite log_log_all. unfold pull.
  rewrite (for_list_first (gen_step iter_queued)
             (fun qe => stash_rev entry = stash_rev qe)
             (fun _ => raise (DvcException "Experiment has not been started.")));
    [|apply quiet_iter_queued|done].
  rewrite collect_queued. cbn [fst snd].
  destruct (List.find _ _); [done|]. by destruct (gen_error iter_queued w).
Qed.

Lemma active_loop_outcome entry timeout evs w :
  active_loop entry timeout (log_all evs w)
  = match List.find (fun te => bool_decide (stash_rev entry = stash_rev te.2))
                    (yielded _iter_active_tasks w) with
    | Some te =>
        (res <- wait_for_task te.1 (stash_rev entry) timeout ;; ret (Some res))
          (log_all (evs ++ [EvIterProcessed]) w)
    | None =>
        (match gen_error _iter_active_tasks w with
         | Some e => Raise e
         | None => Ret None
         end, log_all (evs ++ [EvIterProcessed]) w)
    end.
Proof.
  unfold active_loop, for_gen. unfold bind at 1. simpl.
  rewrite log_log_all. unfold pull.
  rewrite (for_list_first (gen_step _iter_active_tasks)
             (fun te : _TaskEntry => stash_rev entry = stash_rev te.2)
             (fun te : _TaskEntry =>
                res <- wait_for_task te.1 (stash_rev entry) timeout ;;
                ret (Some res))).
  - rewrite collect_active_tasks. cbn [fst snd].
    destruct (List.find _ _); [done|]. by destruct (gen_error _iter_active_tasks w).
  - apply quiet_active_tasks.
  - intros b w'. unfold bind, ret.
    by destruct (wait_for_task b.1 (stash_rev entry) timeout w') as [[r|e] w''].
Qed.

(** The world that [scan_broker] leaves: only read calls have been added
    to the trace, and at most a wait has brought the info records and the
    terminal statuses up to date. *)
Lemma scan_broker_world entry timeout evs w :
  exists evs',
    forallb is_read_call evs' = true
    /\ ((scan_broker entry timeout (log_all evs w)).2 = log_all (evs ++ evs') w
        \/ exists task_id store,
             (scan_broker entry timeout (log_all evs w)).2
             = log_all (evs ++ evs') (after_wait task_id store w)).
Proof.
  pose proof (scan_broker_unfold entry timeout (log_all evs w)) as H.
  unfold bind at 1 in H. rewrite queued_loop_outcome in H.
  destruct (List.find _ (yielded iter_queued w)).
  { exists [EvIterQueued]. split; [done|]. left. by rewrite H. }
  destruct (gen_error iter_queued w).
  { exists [EvIterQueued]. split; [done|]. left. by rewrite H. }
  unfold bind at 1 in H. rewrite active_loop_outcome in H.
  destruct (List.find _ (yielded _iter_active_tasks w)) as [te|].
  - unfold bind at 1 in H. rewrite wait_for_task_outcome in H.
    destruct (backend_get (env w) te.1 timeout) as [store| |e].
    + exists [EvIterQueued; EvIterProcessed; EvTaskGet te.1 timeout;
              EvLoadInfo (stash_rev entry)].
      split; [done|]. right. exists te.1, store. rewrite H.
      destruct (store !! stash_rev entry); cbn [snd]; by rewrite <- ?app_assoc.
    + exists [EvIterQueued; EvIterProcessed; EvTaskGet te.1 timeout].
      split; [done|]. left. rewrite H. cbn [snd]. by rewrite <- ?app_assoc.
    + exists [EvIterQueued; EvIterProcessed; EvTaskGet te.1 timeout].
      split; [done|]. left. rewrite H. cbn [snd]. by rewrite <- ?app_assoc.
  - exists [EvIterQueued; EvIterProcessed]. split; [done|]. left. rewrite H.
    destruct (gen_error _iter_active_tasks w); cbn [snd]; by rewrite <- ?app_assoc.
Qed.

(** [get_result] only reads and waits: whatever its outcome, it leaves the
    broker's queued and delivered views and the stash as they were, and all
    it adds to the trace are loads of the info record, reads of the two
    views and a wait on the backend; no rejection, no kill, no removal. *)
Theorem get_result_only_reads (w : World) (entry : QueueEntry)
    (timeout : option pyfloat) :
  queued (get_result entry timeout w).2 = queued w
  /\ processed (get_result entry timeout w).2 = processed w
  /\ stash_revs (get_result entry timeout w).2 = stash_revs w
  /\ exists evs,
      trace (get_result entry timeout w).2 = trace w ++ evs
      /\ forallb is_read_call evs = true.
Proof.
  unfold get_result. unfold bind at 1 2 3 4.
  destruct (load_collected_world (stash_rev entry) w) as [o ->].
  destruct o as [res|].
  { repeat split; try done. by exists [EvLoadInfo (stash_rev entry)]. }
  destruct (scan_broker_world entry timeout [EvLoadInfo (stash_rev entry)] w)
    as (evs' & Hread & [Hw|(tid & store & Hw)]); rewrite Hw;
    (repeat split; try done;
     exists (EvLoadInfo (stash_rev entry) :: evs'); split; [done|];
     simpl; by rewrite Hread).
Qed.

(** ** The queued view *)

Lemma collect_pure_app {A B} (f : A -> Res (option B)) (l1 l2 : list A) :
  (collect_pure f l1).2 = None ->
  collect_pure f (l1 ++ l2)
  = ((collect_pure f l1).1 ++ (collect_pure f l2).1, (collect_pure f l2).2).
Proof.
  induction l1 as [|a l1 IH]; simpl.
  { intros _. by destruct (collect_pure f l2). }
  destruct (f a) as [[b|]|e]; simpl; try done.
  intros H. rewrite IH by done. done.
Qed.

Lemma collect_pure_run_exp (l : list Message) :
  collect_pure entry_of_message (filter is_run_exp l)
  = collect_pure entry_of_message l.
Proof.
  induction l as [|m l IH]; [done|].
  rewrite filter_cons. unfold is_run_exp at 1. case_decide as Htask.
  - simpl. by rewrite IH.
  - simpl.
    assert (entry_of_message m = Ret None) as ->
      by (unfold entry_of_message; by rewrite decide_True).
    done.
Qed.

Lemma entry_of_message_some m me :
  entry_of_message m = Ret (Some me) ->
  me.1 = m /\ is_run_exp m /\ decode_entry m = Ret me.2.
Proof.
  unfold entry_of_message, is_run_exp. case_decide; [done|].
  destruct (decode_entry m); [|done]. by intros [= <-].
Qed.

Lemma entry_of_message_none m :
  entry_of_message m = Ret None -> ~ is_run_exp m.
Proof.
  unfold entry_of_message, is_run_exp. case_decide; [done|].
  by destruct (decode_entry m).
Qed.

Lemma collect_pure_sound (l : list Message) me :
  me ∈ (collect_pure entry_of_message l).1 ->
  me.1 ∈ l /\ is_run_exp me.1 /\ decode_entry me.1 = Ret me.2.
Proof.
  induction l as [|m l IH]; simpl; [by intros ?%elem_of_nil|].
  destruct (entry_of_message m) as [[me0|]|e] eqn:Hm; simpl.
  - apply entry_of_message_some in Hm. destruct Hm as (Hfst & Htask & Hdec).
    intros [->|Hin]%elem_of_cons.
    + rewrite Hfst. split; [by left|done].
    + destruct (IH Hin) as (? & ? & ?). split; [by right|done].
  - intros (? & ? & ?)%IH. split; [by right|done].
  - by intros ?%elem_of_nil.
Qed.

Lemma collect_pure_complete (l : list Message) m :
  (collect_pure entry_of_message l).2 = None ->
  m ∈ l -> is_run_exp m ->
  exists e, decode_entry m = Ret e /\ (m, e) ∈ (collect_pure entry_of_message l).1.
Proof.
  induction l as [|m0 l IH]; simpl; [by intros _ ?%elem_of_nil|].
  destruct (entry_of_message m0) as [[me0|]|e] eqn:Hm; simpl; [| |done].
  - apply entry_of_message_some in Hm. destruct Hm as (Hfst & Htask & Hdec).
    intros Herr [->|Hin]%elem_of_cons Hrun.
    + exists me0.2. split; [done|]. rewrite <- Hfst at 1.
      destruct me0. by left.
    + destruct (IH Herr Hin Hrun) as (e' & ? & ?). exists e'. split; [done|].
      by right.
  - apply entry_of_message_none in Hm.
    intros Herr [->|Hin]%elem_of_cons Hrun; [done|]. by apply IH.
Qed.

Lemma collect_pure_filter_ok (P : Message -> Prop) `{!forall m, Decision (P m)}
    (l : list Message) :
  (collect_pure entry_of_message l).2 = None ->
  (collect_pure entry_of_message (filter P l)).2 = None.
Proof.
  induction l as [|m l IH]; [done|]. simpl.
  rewrite filter_cons.
  destruct (entry_of_message m) as [[me|]|e] eqn:Hm; simpl; try done.
  - intros Herr. case_decide; [|by apply IH]. simpl. rewrite Hm. simpl.
    by apply IH.
  - intros Herr. case_decide; [|by apply IH]. simpl. rewrite Hm. by apply IH.
Qed.

Lemma gen_error_iter_queued w :
  gen_error iter_queued w = gen_error _iter_queued w.
Proof.
  unfold gen_error, collect. simpl. unfold celery_iter_queued.
  unfold pull at 1. by rewrite collect_list_map.
Qed.

(** What [iter_queued] yields depends on the broker's queue alone. *)
Lemma iter_queued_of_queue w :
  yielded iter_queued w = snd <$> (collect_pure entry_of_message (queued w)).1
  /\ gen_error iter_queued w = (collect_pure entry_of_message (queued w)).2.
Proof.
  rewrite yielded_iter_queued, gen_error_iter_queued.
  destruct (yielded__iter_queued w) as [-> ->]. done.
Qed.

(** Messages of other task types do not count: dropping them from the
    broker's queue changes neither what [iter_queued] yields nor the
    exception it may end with, even when such a message could not be
    decoded. *)
Theorem iter_queued_ignores_other_tasks (w : World) :
  yielded iter_queued (set_queued (filter is_run_exp (queued w)) w)
  = yielded iter_queued w
  /\ gen_error iter_queued (set_queued (filter is_run_exp (queued w)) w)
     = gen_error iter_queued w.
Proof.
  destruct (iter_queued_of_queue w) as [-> ->].
  destruct (iter_queued_of_queue (set_queued (filter is_run_exp (queued w)) w))
    as [-> ->].
  simpl. by rewrite collect_pure_run_exp.
Qed.

(** A queued message of this task type with no positional argument ends
    the iteration with an [IndexError], also when it carries its entry as
    the keyword argument: [iter_queued] yields what the queue before that
    message yields, and nothing of what comes after it. *)
Theorem iter_queued_stops_at_empty_args (w : World) (l1 l2 : list Message)
    (m : Message) :
  queued w = l1 ++ m :: l2 ->
  gen_error iter_queued (set_queued l1 w) = None ->
  is_run_exp m ->
  body_args m = [] ->
  yielded iter_queued w = yielded iter_queued (set_queued l1 w)
  /\ gen_error iter_queued w = Some IndexError.
Proof.
  intros Hq Herr Htask Hargs.
  destruct (iter_queued_of_queue w) as [-> ->].
  destruct (iter_queued_of_queue (set_queued l1 w)) as [Hy He].
  rewrite Hy. rewrite He in Herr. simpl in *. rewrite Hq.
  assert (entry_of_message m = Raise IndexError) as Hm.
  { unfold entry_of_message, decode_entry.
    rewrite decide_False by (intros H; apply H, Htask). by rewrite Hargs. }
  rewrite collect_pure_app by done. simpl. rewrite Hm. simpl.
  by rewrite app_nil_r.
Qed.

Lemma iter_queued_stops_at_empty_args_witness :
  body_kwargs Cases.keyword_only !! "entry_dict" = Some Sample.entry_d
  /\ yielded iter_queued Cases.world_keyword_only = [Sample.entry_a]
  /\ gen_error iter_queued Cases.world_keyword_only = Some IndexError.
Proof.
  split; [reflexivity|].
  destruct (iter_queued_stops_at_empty_args Cases.world_keyword_only
              [Sample.message run_exp_name "task-1" "tag-1" Sample.entry_a]
              [Sample.message run_exp_name "task-5" "tag-5" Sample.entry_b]
              Cases.keyword_only) as [Hy He]; try reflexivity.
  split; [|exact He]. rewrite Hy. reflexivity.
Defined.

(** ** [_remove_revs] and the queue it leaves *)

Lemma filter_tags (tag : string) (tags : list string) (l : list Message) :
  filter (fun m => delivery_tag m ∉ tags) (filter (fun m => delivery_tag m <> tag) l)
  = filter (fun m => delivery_tag m ∉ tag :: tags) l.
Proof.
  induction l as [|m l IH]; [done|].
  rewrite !filter_cons. destruct (decide (delivery_tag m = tag)) as [Heq|Hne].
  - rewrite decide_False by (intros H; by apply H).
    rewrite decide_False by (intros H; apply H; rewrite Heq; by left). done.
  - rewrite decide_True by done. rewrite filter_cons.
    destruct (decide (delivery_tag m ∈ tags)) as [Hin|Hout].
    + rewrite decide_False by (intros H; by apply H).
      rewrite decide_False by (intros H; apply H; by right). done.
    + rewrite decide_True by done.
      rewrite decide_True by (by intros [?|?]%elem_of_cons). by rewrite IH.
Qed.

(** The queue after a rejection pass that meets no failure. *)
Lemma reject_loop_queue revs (l : list Message) :
  forall w0,
    (collect_pure entry_of_message l).2 = None ->
    (forall me, me ∈ (collect_pure entry_of_message l).1 ->
                stash_rev me.2 ∈ dom revs ->
                reject_exn (env w0) (delivery_tag me.1) = None) ->
    queued (for_list (A:=Message) l (pull _iter_queued (reject_matching revs)) w0).2
    = filter (fun m => delivery_tag m
                       ∉ (fun me : _MessageEntry => delivery_tag me.1)
                           <$> filter (fun me : _MessageEntry =>
                                         stash_rev me.2 ∈ dom revs)
                                      (collect_pure entry_of_message l).1)
             (queued w0).
Proof.
  induction l as [|m l IH]; intros w0 Herr Hall.
  { simpl. induction (queued w0) as [|x q IHq]; [done|].
    rewrite filter_cons, decide_True by (by intros ?%elem_of_nil). by f_equal. }
  rewrite reject_loop_cons. cbn [collect_pure] in *.
  destruct (entry_of_message m) as [[me|]|e] eqn:Hm; [| |done].
  - cbn [fst snd] in *. rewrite filter_cons. case_decide as Hrev.
    + rewrite (Hall me) by (done || by left).
      rewrite IH; [|done|].
      * rewrite fmap_cons. cbn [queued log set_queued log_all set_trace].
        apply filter_tags.
      * intros me' Hme' Hrev'. apply Hall; [by right|done].
    + apply IH; [done|]. intros me' Hme' Hrev'. apply Hall; [by right|done].
  - by apply IH.
Qed.

(** When every queued message decodes and no rejection is refused,
    [_remove_revs] leaves no trace of the given revisions: the call
    succeeds, [iter_queued] no longer yields an entry of one of them, and the
    stash holds no record of one of them. *)
Theorem remove_revs_leaves_nothing_queued (w : World)
    (revs : gmap string ExpStashEntry) :
  gen_error _iter_queued w = None ->
  (forall me, me ∈ yielded _iter_queued w -> stash_rev me.2 ∈ dom revs ->
              reject_exn (env w) (delivery_tag me.1) = None) ->
  (_remove_revs revs w).1 = Ret tt
  /\ Forall (fun qe => stash_rev qe ∉ dom revs)
            (yielded iter_queued (_remove_revs revs w).2)
  /\ gen_error iter_queued (_remove_revs revs w).2 = None
  /\ Forall (fun p => p.1 ∉ dom revs) (stash_revs (_remove_revs revs w).2).
Proof.
  intros Herr Hall.
  destruct (yielded__iter_queued w) as [Hy He]. rewrite Hy in Hall. rewrite He in Herr.
  destruct (reject_loop revs (queued w) (log EvIterQueued w))
    as (tags & _ & _ & _ & Hok).
  destruct (Hok Herr Hall) as [Hret _].
  pose proof (reject_loop_queue revs (queued w) (log EvIterQueued w) Herr Hall)
    as Hq.
  rewrite remove_revs_unfold. unfold try_finally, super_remove_revs.
  change (queued (log EvIterQueued w)) with (queued w) in *.
  destruct (for_list (A:=Message) (queued w) (pull _iter_queued (reject_matching revs))
                     (log EvIterQueued w)) as [r w1].
  cbn [fst snd] in *. subst r. cbn [fst snd].
  split; [done|].
  match goal with
  | |- context [yielded iter_queued ?x] =>
      destruct (iter_queued_of_queue x) as [-> ->]
  end.
  cbn [queued log log_all set_trace set_stash_revs]. rewrite Hq.
  split; [|split].
  - apply Forall_forall. intros qe (me & -> & Hme)%list_elem_of_fmap.
    apply collect_pure_sound in Hme as Hs. destruct Hs as (Hin & Hrun & Hdec).
    apply list_elem_of_filter in Hin. destruct Hin as [Hout Hin].
    intros Hrev. apply Hout.
    destruct (collect_pure_complete _ _ Herr Hin Hrun) as (e & Hdec' & Hyield).
    assert (e = me.2) as -> by congruence.
    apply list_elem_of_fmap. exists (me.1, me.2). split; [done|].
    apply list_elem_of_filter. done.
  - by apply collect_pure_filter_ok.
  - apply Forall_forall. intros p Hp.
    cbn [stash_revs log log_all set_trace set_stash_revs] in Hp.
    apply list_elem_of_filter in Hp. by destruct Hp.
Qed.

Lemma remove_revs_leaves_nothing_queued_witness :
  (_remove_revs Sample.revs_a_b Sample.world_two_queued).1 = Ret tt
  /\ Forall (fun qe => stash_rev qe ∉ dom Sample.revs_a_b)
            (yielded iter_queued
               (_remove_revs Sample.revs_a_b Sample.world_two_queued).2)
  /\ gen_error iter_queued
       (_remove_revs Sample.revs_a_b Sample.world_two_queued).2 = None
  /\ Forall (fun p => p.1 ∉ dom Sample.revs_a_b)
            (stash_revs (_remove_revs Sample.revs_a_b Sample.world_two_queued).2).
Proof.
  apply (remove_revs_leaves_nothing_queued Sample.world_two_queued Sample.revs_a_b).
  - reflexivity.
  - intros me _ _. reflexivity.
Defined.

(** ** [WorkspaceQueue.iter_queued] *)

Lemma ws_iter_queued_step item w :
  gen_step ws_iter_queued item w
  = (Raise (OtherError (if decide (length (characters item) = 2)
                        then "AttributeError" else "ValueError")), w).
Proof.
  cbn [gen_step ws_iter_queued]. unfold bind at 1. unfold unpack_pair.
  destruct (characters item) as [|c1 [|c2 [|c3 cs]]]; try done.
Qed.

(** [iter_queued] of the synchronous queue never yields an entry.  On an
    empty stash it ends at once; on any other stash it raises at the first
    key, which it unpacks into the two names of the loop: a [ValueError]
    when the key does not have exactly two characters, and otherwise an
    [AttributeError], the second character having no [baseline_rev]. *)
Theorem ws_iter_queued_never_yields (w : World) :
  yielded ws_iter_queued w = []
  /\ (gen_error ws_iter_queued w = None <-> stash_revs w = [])
  /\ (forall rev se rest,
        stash_revs w = (rev, se) :: rest ->
        gen_error ws_iter_queued w
        = Some (OtherError (if decide (length (characters rev) = 2)
                            then "AttributeError" else "ValueError"))).
Proof.
  unfold yielded, gen_error, collect. cbn [gen_open ws_iter_queued fst snd].
  destruct (stash_revs w) as [|[rev se] rest]; cbn [fmap list_fmap fst].
  { simpl. split; [done|]. split; [done|]. by intros. }
  cbn [collect_list]. rewrite ws_iter_queued_step. cbn [fst snd].
  split; [done|]. split; [by split|]. by intros ? ? ? [= <- _ _].
Qed.

Lemma ws_iter_queued_never_yields_witness :
  gen_error ws_iter_queued Cases.two_stashed = Some (OtherError "ValueError")
  /\ gen_error ws_iter_queued
       (set_stash_revs [("xy", Sample.stash_entry)] Cases.two_stashed)
     = Some (OtherError "AttributeError")
  /\ gen_error ws_iter_queued
       (set_stash_revs [("é", Sample.stash_entry)] Cases.two_stashed)
     = Some (OtherError "ValueError").
Proof.
  split; [|split].
  - apply (proj2 (proj2 (ws_iter_queued_never_yields Cases.two_stashed))
             "abc123" Sample.stash_entry [("xy", Sample.stash_entry)]).
    reflexivity.
  - apply (proj2 (proj2 (ws_iter_queued_never_yields
                           (set_stash_revs [("xy", Sample.stash_entry)]
                                           Cases.two_stashed)))
             "xy" Sample.stash_entry []).
    reflexivity.
  - apply (proj2 (proj2 (ws_iter_queued_never_yields
                           (set_stash_revs [("é", Sample.stash_entry)]
                                           Cases.two_stashed)))
             "é" Sample.stash_entry []).
    reflexivity.
Defined.

(** ** One execution *)

(** An execution that ends with an experiment hash never fails.  Without
    a produced reference its result is the empty mapping; with one, the
    revision is mapped to the [EXEC_BRANCH] reference and the hash, or to
    an empty mapping when that reference is not set. *)
Theorem reproduce_entry_with_hash (w : World) (entry : QueueEntry)
    (executor : Executor) (er : ExecutorResult) :
  run_outcome (executor_run (env w) (stash_rev entry)) = Ret er ->
  truthy (exp_hash er) = true ->
  (_reproduce_entry entry executor w).1
  = Ret (match ref_info er with
         | None => ∅
         | Some _ =>
             {[ stash_rev entry
                := if truthy (run_exec_branch
                                (executor_run (env w) (stash_rev entry)))
                   then run_refs (env w) (stash_rev entry)
                   else ∅ ]}
         end).
Proof.
  intros Hrun Hhash.
  unfold _reproduce_entry, bind, get_infofile_path, try_finally,
    try_except, executor_reproduce, executor_cleanup, emit, run_refs.
  simpl. rewrite Hrun, Hhash. simpl.
  destruct (ref_info er); [|done]. simpl.
  unfold bind, collect_executor, ret. simpl. rewrite Hhash.
  unfold bind. simpl.
  by destruct (truthy (run_exec_branch _)).
Qed.

Lemma reproduce_entry_with_hash_witness :
  (_reproduce_entry (Sample.entry "abc123" None)
                    (mkExecutor (Sample.entry "abc123" None) true)
                    Cases.two_stashed).1
  = Ret {[ "abc123" := {[ "branch-abc123" := "hash-abc123" ]} ]}.
Proof.
  rewrite (reproduce_entry_with_hash Cases.two_stashed
             (Sample.entry "abc123" None)
             (mkExecutor (Sample.entry "abc123" None) true)
             (mkExecutorResult (Some "hash-abc123") (Some "refs/exps/x") false));
    reflexivity.
Defined.

(** An error of the executor ends [reproduce]: a [DvcException] leaves as
    it is, any other [Exception] is replaced by the failed-to-reproduce
    error that names the first seven characters of the revision, and what
    is not an [Exception] leaves as it is; the executor has been cleaned up
    and the results gathered so far are not returned. *)
Theorem reproduce_wraps_executor_errors (w : World) (rev : string)
    (se : ExpStashEntry) (rest : list (string * ExpStashEntry)) (fuel : nat)
    (results : gmap string (gmap string string)) (e : Exn) :
  stash_revs w = (rev, se) :: rest ->
  run_outcome (executor_run (env w) rev) = Raise e ->
  e <> CheckpointKilledError ->
  (forall msg, e <> ExpQueueEmptyError msg) ->
  reproduce_loop (S fuel) results w
  = Some (Raise (if is_DvcException e then e
                 else if is_Exception e then failed_to_reproduce rev
                 else e),
          after_turn w)
  /\ last (trace (after_turn w)) = Some (EvExecCleanup rev).
Proof.
  intros Hstash Hrun Hkill Hempty.
  rewrite reproduce_loop_turn. unfold after_turn.
  rewrite (turn_cons w rev se rest) by done.
  pose proof (reproduce_entry_raised
                (stash_queue_entry (env w) rev se)
                (mkExecutor (stash_queue_entry (env w) rev se)
                            (executor_is_workspace (env w)))
                (log (EvSetupExecutor rev)
                     (set_stash_revs (filter (fun p => p.1 <> rev) rest) w))
                e Hrun) as Hout.
  pose proof (reproduce_entry_world
                (stash_queue_entry (env w) rev se)
                (mkExecutor (stash_queue_entry (env w) rev se)
                            (executor_is_workspace (env w)))
                (log (EvSetupExecutor rev)
                     (set_stash_revs (filter (fun p => p.1 <> rev) rest) w)))
    as Hw.
  destruct (_reproduce_entry _ _ _) as [r w1]. simpl in Hout, Hw. subst r w1.
  split.
  - destruct e; try done. by destruct (Hempty msg).
  - unfold after_entry, log_all. simpl.
    match goal with
    | |- last (?t ++ [?a; ?b]) = _ =>
        replace (t ++ [a; b]) with ((t ++ [a]) ++ [b])
          by (by rewrite <- app_assoc)
    end.
    apply last_snoc.
Qed.

Lemma reproduce_wraps_executor_errors_witness :
  reproduce_loop 1 ∅ Cases.one_failing
  = Some (Raise (DvcException "Failed to reproduce experiment 'abc1234'"),
          after_turn Cases.one_failing).
Proof.
  apply (reproduce_wraps_executor_errors Cases.one_failing "abc1234567"
           Sample.stash_entry [] 0 ∅ (KeyError "params")); try reflexivity.
  - discriminate.
  - intros msg. discriminate.
Defined.

(** ** [reproduce] on a stash of successful experiments *)

Lemma good_run_results w rev se rest :
  stash_revs w = (rev, se) :: rest ->
  good_run (env w) rev ->
  (got <- ws_get ;; _reproduce_entry got.1 got.2) w
  = (Ret {[ rev := run_refs (env w) rev ]},
     log_all (turn_calls (env w) rev)
             (set_exec_branch (run_exec_branch (executor_run (env w) rev))
                (set_stash_revs (filter (fun p => p.1 <> rev) rest) w))).
Proof.
  intros Hstash (er & Hrun & Hhash & [ref Href] & Hbranch).
  rewrite (turn_cons w rev se rest) by done.
  pose proof (reproduce_entry_with_hash
                (log (EvSetupExecutor rev)
                     (set_stash_revs (filter (fun p => p.1 <> rev) rest) w))
                (stash_queue_entry (env w) rev se)
                (mkExecutor (stash_queue_entry (env w) rev se)
                            (executor_is_workspace (env w)))
                er Hrun Hhash) as Hout.
  pose proof (reproduce_entry_world
                (stash_queue_entry (env w) rev se)
                (mkExecutor (stash_queue_entry (env w) rev se)
                            (executor_is_workspace (env w)))
                (log (EvSetupExecutor rev)
                     (set_stash_revs (filter (fun p => p.1 <> rev) rest) w)))
    as Hw.
  destruct (_reproduce_entry _ _ _) as [r w1]. simpl in Hout, Hw. subst r w1.
  rewrite Href, Hbranch. f_equal.
  unfold after_entry, turn_calls, log, log_all, set_trace, set_exec_branch,
    set_stash_revs, workspace_infofile. simpl. by rewrite <- app_assoc.
Qed.

(** The loop over a stash of successful experiments with distinct
    revisions: it takes the records in the order of the stash, and adds to
    the results one mapping per revision. *)
Lemma reproduce_loop_all_good stash :
  forall w (acc : gmap string (gmap string string)),
    stash_revs w = stash ->
    NoDup stash.*1 ->
    Forall (fun p => good_run (env w) p.1) stash ->
    exists results w',
      reproduce_loop (S (length stash)) acc w = Some (Ret results, w')
      /\ (forall rev, results !! rev
                      = if decide (rev ∈ stash.*1)
                        then Some (run_refs (env w) rev) else acc !! rev)
      /\ trace w' = trace w ++ (stash ≫= fun p => turn_calls (env w) p.1)
      /\ stash_revs w' = [].
Proof.
  induction stash as [|[rev se] rest IH]; intros w acc Hstash Hnd Hgood.
  { exists acc, w. rewrite reproduce_loop_turn. unfold bind.
    rewrite ws_get_empty by done. simpl. rewrite app_nil_r.
    split; [done|]. split; [|done]. by intros rev. }
  apply NoDup_cons in Hnd. destruct Hnd as [Hfresh Hnd].
  apply Forall_cons in Hgood. destruct Hgood as [Hrev Hgood].
  simpl in Hfresh.
  cbn [length]. rewrite reproduce_loop_turn.
  rewrite (good_run_results w rev se rest) by done.
  rewrite (filter_fresh_key rev rest) by done.
  destruct (IH (log_all (turn_calls (env w) rev)
                  (set_exec_branch (run_exec_branch (executor_run (env w) rev))
                     (set_stash_revs rest w)))
               ({[ rev := run_refs (env w) rev ]} ∪ acc))
    as (results & w' & Hloop & Hlook & Htrace & Hrest); try done.
  exists results, w'. split; [exact Hloop|]. split; [|split; [|done]].
  - intros k. rewrite Hlook. simpl.
    destruct (decide (k = rev)) as [->|Hne].
    + rewrite decide_False by done. rewrite decide_True by (by left).
      by rewrite lookup_union_l', lookup_singleton_eq
        by (rewrite lookup_singleton_eq; by eexists).
    + case_decide as Hin.
      * by rewrite decide_True by (by right).
      * rewrite decide_False by (by intros [?|?]%elem_of_cons).
        by rewrite lookup_union_r by (by rewrite lookup_singleton_ne).
  - rewrite Htrace. simpl. by rewrite <- app_assoc.
Qed.

(** When every stashed experiment (the revisions being distinct) runs to
    an experiment hash and a reference, [reproduce] returns with one
    mapping per stash revision, from the reference the executor left to the
    hash; the experiments are executed one after the other in the order of
    the stash, each set up, run and cleaned up before the next; and the
    stash is empty afterwards. *)
Theorem reproduce_runs_stash_in_order (w : World) :
  NoDup (stash_revs w).*1 ->
  Forall (fun p => good_run (env w) p.1) (stash_revs w) ->
  exists results w',
    reproduce (S (length (stash_revs w))) w = Some (Ret results, w')
    /\ (forall rev, rev ∈ (stash_revs w).*1 ->
                    results !! rev = Some (run_refs (env w) rev))
    /\ (forall rev, rev ∉ (stash_revs w).*1 -> results !! rev = None)
    /\ trace w' = trace w ++ (stash_revs w ≫= fun p => turn_calls (env w) p.1)
    /\ stash_revs w' = [].
Proof.
  intros Hnd Hgood.
  destruct (reproduce_loop_all_good (stash_revs w) w ∅ eq_refl Hnd Hgood)
    as (results & w' & Hloop & Hlook & Htrace & Hrest).
  exists results, w'. split; [exact Hloop|]. split; [|split; [|done]].
  - intros rev Hin. by rewrite Hlook, decide_True.
  - intros rev Hout. by rewrite Hlook, decide_False.
Qed.

Lemma reproduce_runs_stash_in_order_witness :
  exists results w',
    reproduce 3 Cases.two_stashed = Some (Ret results, w')
    /\ results !! "abc123" = Some {[ "branch-abc123" := "hash-abc123" ]}
    /\ results !! "xy" = Some {[ "branch-xy" := "hash-xy" ]}
    /\ trace w'
       = [EvSetupExecutor "abc123";
          EvExecReproduce "abc123"
            "/repo/.dvc/tmp/exps/run/workspace/workspace.run" false;
          EvExecCleanup "abc123";
          EvSetupExecutor "xy";
          EvExecReproduce "xy"
            "/repo/.dvc/tmp/exps/run/workspace/workspace.run" false;
          EvExecCleanup "xy"].
Proof.
  destruct (reproduce_runs_stash_in_order Cases.two_stashed)
    as (results & w' & Hrun & Hin & _ & Htrace & _).
  - refine (bool_decide_unpack _ _). vm_compute. exact I.
  - repeat constructor; eexists; repeat split; try reflexivity; by eexists.
  - exists results, w'. split; [exact Hrun|]. split; [|split].
    + rewrite Hin; [reflexivity|]. refine (bool_decide_unpack _ _).
      vm_compute. exact I.
    + rewrite Hin; [reflexivity|]. refine (bool_decide_unpack _ _).
      vm_compute. exact I.
    + rewrite Htrace. reflexivity.
Defined.

(** ** [shutdown] *)

Lemma kill_tolerantly_outcome te evs w :
  kill_tolerantly te (log_all evs w)
  = (match kill_exn (env w) (stash_rev te.2) with
     | None | Some ProcessLookupError => Ret None
     | Some e => Raise e
     end,
     log_all (evs ++ [EvProcKill (stash_rev te.2)]) w).
Proof.
  unfold kill_tolerantly, bind, try_except, proc_kill, ret. simpl.
  destruct (kill_exn (env w) (stash_rev te.2)) as [e|]; simpl.
  - destruct e; simpl; by rewrite log_log_all.
  - by rewrite log_log_all.
Qed.

Lemma shutdown_turn m l evs w :
  for_list (A:=Message) (m :: l) (pull _iter_active_tasks kill_tolerantly)
           (log_all evs w)
  = match (gen_step _iter_active_tasks m w).1 with
    | Raise e => (Raise e, log_all evs w)
    | Ret None =>
        for_list (A:=Message) l (pull _iter_active_tasks kill_tolerantly)
                 (log_all evs w)
    | Ret (Some te) =>
        match kill_exn (env w) (stash_rev te.2) with
        | None | Some ProcessLookupError =>
            for_list (A:=Message) l (pull _iter_active_tasks kill_tolerantly)
                     (log_all (evs ++ [EvProcKill (stash_rev te.2)]) w)
        | Some e => (Raise e, log_all (evs ++ [EvProcKill (stash_rev te.2)]) w)
        end
    end.
Proof.
  cbn [for_list]. unfold bind at 1. unfold pull at 1. unfold bind at 1.
  rewrite (quiet_at _ m evs w quiet_active_tasks).
  destruct (gen_step _iter_active_tasks m w) as [[[te|]|e] w1]; cbn [fst snd];
    try done.
  rewrite kill_tolerantly_outcome.
  destruct (kill_exn (env w) (stash_rev te.2)) as [e|]; [|done].
  by destruct e.
Qed.

Lemma shutdown_loop_all l w :
  forall evs,
    (collect_list (gen_step _iter_active_tasks) l w).1.2 = None ->
    (forall te, te ∈ (collect_list (gen_step _iter_active_tasks) l w).1.1 ->
                tolerated (env w) (stash_rev te.2)) ->
    for_list (A:=Message) l (pull _iter_active_tasks kill_tolerantly)
             (log_all evs w)
    = (Ret None,
       log_all (evs ++ kills_of (collect_list (gen_step _iter_active_tasks) l w).1.1)
               w).
Proof.
  induction l as [|m l IH]; intros evs Herr Hall.
  { simpl. by rewrite app_nil_r. }
  rewrite shutdown_turn. cbn [collect_list] in *.
  pose proof (quiet_active_tasks m w) as [Hw _].
  destruct (gen_step _iter_active_tasks m w) as [[[te|]|e] w1];
    cbn [fst snd] in *; subst; [| |done].
  - destruct (collect_list (gen_step _iter_active_tasks) l w) as [[ys err] w2].
    cbn [fst snd] in *.
    assert (Hte : tolerated (env w) (stash_rev te.2)) by (apply Hall; by left).
    assert (Hrest : for_list (A:=Message) l
                      (pull _iter_active_tasks kill_tolerantly)
                      (log_all (evs ++ [EvProcKill (stash_rev te.2)]) w)
                    = (Ret None,
                       log_all (evs ++ kills_of (te :: ys)) w)).
    { rewrite IH; [|done|intros x Hx; apply Hall; by right].
      unfold kills_of. rewrite fmap_cons. by rewrite <- app_assoc. }
    destruct Hte as [-> | ->]; exact Hrest.
  - by apply IH.
Qed.

Lemma shutdown_loop_stops l w :
  forall evs T1 te T2 e,
    (collect_list (gen_step _iter_active_tasks) l w).1.1 = T1 ++ te :: T2 ->
    (forall x, x ∈ T1 -> tolerated (env w) (stash_rev x.2)) ->
    kill_exn (env w) (stash_rev te.2) = Some e ->
    e <> ProcessLookupError ->
    for_list (A:=Message) l (pull _iter_active_tasks kill_tolerantly)
             (log_all evs w)
    = (Raise e, log_all (evs ++ kills_of (T1 ++ [te])) w).
Proof.
  induction l as [|m l IH]; intros evs T1 te T2 e HT Hall Hkill Hne.
  { simpl in HT. by destruct T1. }
  rewrite shutdown_turn. cbn [collect_list] in *.
  pose proof (quiet_active_tasks m w) as [Hw _].
  destruct (gen_step _iter_active_tasks m w) as [[[x|]|e0] w1];
    cbn [fst snd] in *; subst.
  - destruct (collect_list (gen_step _iter_active_tasks) l w) as [[ys err] w2].
    cbn [fst snd] in *.
    destruct T1 as [|y T1]; simpl in HT; inversion HT; subst.
    + rewrite Hkill. by destruct e.
    + assert (Hy : tolerated (env w) (stash_rev y.2)) by (apply Hall; by left).
      assert (Hrest : for_list (A:=Message) l
                        (pull _iter_active_tasks kill_tolerantly)
                        (log_all (evs ++ [EvProcKill (stash_rev y.2)]) w)
                      = (Raise e, log_all (evs ++ kills_of ((y :: T1) ++ [te])) w)).
      { rewrite (IH _ T1 te T2 e); try done.
        - unfold kills_of. simpl. by rewrite <- app_assoc.
        - intros z Hz. apply Hall. by right. }
      destruct Hy as [-> | ->]; exact Hrest.
  - by apply (IH evs T1 te T2 e).
  - by destruct T1.
Qed.

Lemma kill_active_unfold w :
  kill_active w
  = match for_list (A:=Message) (processed w)
                   (pull _iter_active_tasks kill_tolerantly)
                   (log_all [EvIterProcessed] w) with
    | (Ret _, w1) => (Ret tt, w1)
    | (Raise e, w1) => (Raise e, w1)
    end.
Proof. reflexivity. Qed.

(** [shutdown] always sends the shutdown broadcast first.  Without [kill]
    it does nothing else.  With [kill] it then asks the process manager to
    kill the process of every active task, in the order of the delivered
    view, and goes on to the next task when the process manager reports a
    process as gone; the call returns once all of them have been asked
    for. *)
Theorem shutdown_kills_every_active_task (c : Control) :
  shutdown false c
  = (Ret tt,
     mkControl (control_world c)
               (broadcasts c ++ [length (trace (control_world c))]))
  /\ (gen_error _iter_active_tasks (control_world c) = None ->
      (forall te, te ∈ yielded _iter_active_tasks (control_world c) ->
                  tolerated (env (control_world c)) (stash_rev te.2)) ->
      shutdown true c
      = (Ret tt,
         mkControl
           (log_all (EvIterProcessed
                       :: kills_of (yielded _iter_active_tasks (control_world c)))
                    (control_world c))
           (broadcasts c ++ [length (trace (control_world c))]))).
Proof.
  split; [done|]. intros Herr Hall.
  unfold shutdown, control_shutdown. cbn [control_world broadcasts].
  rewrite kill_active_unfold.
  pose proof (collect_active_tasks [] (control_world c)) as Hc.
  rewrite log_all_nil in Hc.
  rewrite shutdown_loop_all; rewrite ?Hc; try done.
Qed.

Lemma shutdown_kills_every_active_task_witness :
  shutdown true (mkControl (Cases.two_running Cases.gone_env) [])
  = (Ret tt,
     mkControl (log_all [EvIterProcessed; EvProcKill "abc123"; EvProcKill "def456"]
                        (Cases.two_running Cases.gone_env))
               [1]).
Proof.
  apply (proj2 (shutdown_kills_every_active_task
                  (mkControl (Cases.two_running Cases.gone_env) []))).
  - reflexivity.
  - intros te Hte. vm_compute in Hte.
    apply elem_of_cons in Hte. destruct Hte as [->|Hte].
    + right. reflexivity.
    + apply list_elem_of_singleton in Hte. subst te. left. reflexivity.
Defined.

(** With [kill], an error of the process manager other than a process
    that is gone ends [shutdown] with that error: the tasks before it have
    been asked for, those after it have not. *)
Theorem shutdown_stops_at_other_errors (c : Control) (T1 T2 : list _TaskEntry)
    (te : _TaskEntry) (e : Exn) :
  yielded _iter_active_tasks (control_world c) = T1 ++ te :: T2 ->
  (forall x, x ∈ T1 -> tolerated (env (control_world c)) (stash_rev x.2)) ->
  kill_exn (env (control_world c)) (stash_rev te.2) = Some e ->
  e <> ProcessLookupError ->
  shutdown true c
  = (Raise e,
     mkControl
       (log_all (EvIterProcessed :: kills_of (T1 ++ [te])) (control_world c))
       (broadcasts c ++ [length (trace (control_world c))])).
Proof.
  intros HT Hall Hkill Hne.
  unfold shutdown, control_shutdown. cbn [control_world broadcasts].
  rewrite kill_active_unfold.
  pose proof (collect_active_tasks [] (control_world c)) as Hc.
  rewrite log_all_nil in Hc.
  rewrite (shutdown_loop_stops _ _ _ T1 te T2 e); rewrite ?Hc; try done.
Qed.

Lemma shutdown_stops_at_other_errors_witness :
  shutdown true (mkControl (Cases.two_running Cases.unknown_env) [])
  = (Raise (KeyError "abc123"),
     mkControl (log_all [EvIterProcessed; EvProcKill "abc123"]
                        (Cases.two_running Cases.unknown_env))
               [1]).
Proof.
  apply (shutdown_stops_at_other_errors
           (mkControl (Cases.two_running Cases.unknown_env) [])
           [] [("task-2", Sample.entry_b)] ("task-1", Sample.entry_a)
           (KeyError "abc123")).
  - reflexivity.
  - intros x Hx. by apply elem_of_nil in Hx.
  - reflexivity.
  - discriminate.
Defined.

(** ** [follow] and [logs] *)

Lemma write_lines lines evs w :
  for_list lines (fun line => ui_write line ;; ret (@None unit))%queue
           (log_all evs w)
  = (Ret None, log_all (evs ++ (EvUiWrite <$> lines)) w).
Proof.
  revert evs. induction lines as [|line lines IH]; intros evs.
  { simpl. by rewrite app_nil_r. }
  cbn [for_list]. unfold bind at 1. unfold bind at 1.
  unfold ui_write, emit. rewrite log_log_all. unfold ret at 1.
  rewrite IH. rewrite fmap_cons. by rewrite <- app_assoc.
Qed.

Lemma follow_outcome entry encoding evs w :
  follow entry encoding (log_all evs w)
  = (match (proc_follow (env w) (stash_rev entry)).2 with
     | Some e => Raise e
     | None => Ret tt
     end,
     log_all (evs ++ EvProcFollow (stash_rev entry) encoding
                  :: (EvUiWrite <$> (proc_follow (env w) (stash_rev entry)).1))
             w).
Proof.
  unfold follow. unfold bind at 1. unfold emit. rewrite log_log_all.
  unfold bind at 1. cbn [env log_all set_trace].
  unfold bind at 1. rewrite write_lines. rewrite <- app_assoc. simpl.
  by destruct (proc_follow (env w) (stash_rev entry)).2.
Qed.

(** [logs] with [follow], for an identifier that resolves against the
    active and done entries: it writes the notice, then follows the
    process of the resolved entry, always with no encoding whatever the
    caller gave, and writes the lines in the order they come.  A keyboard
    interrupt that ends the stream is absorbed and the call returns; any
    other exception of the stream leaves the call. *)
Theorem logs_follow_writes_stream (w : World) (rev : string)
    (encoding : option string) (d : gmap string (option QueueEntry))
    (w1 : World) (queue_entry : QueueEntry) :
  match_queue_entry_by_name {[rev]} [iter_active; gen_map fst iter_done] w
  = (Ret d, w1) ->
  mjoin (d !! rev) = Some queue_entry ->
  logs rev encoding true w
  = (match (proc_follow (env w1) (stash_rev queue_entry)).2 with
     | None | Some KeyboardInterrupt => Ret tt
     | Some e => Raise e
     end,
     log_all (EvUiWrite (follow_notice rev)
                :: EvProcFollow (stash_rev queue_entry) None
                :: (EvUiWrite <$> (proc_follow (env w1) (stash_rev queue_entry)).1))
             w1).
Proof.
  intros Hd Hq. unfold logs. unfold bind at 1. rewrite Hd, Hq.
  unfold bind at 1. unfold ui_write at 1, emit at 1.
  rewrite log_as_log_all. unfold try_except.
  rewrite follow_outcome. cbn [app].
  destruct (proc_follow (env w1) (stash_rev queue_entry)).2 as [e|]; [|done].
  by destruct e.
Qed.

Lemma logs_follow_writes_stream_witness :
  logs "abc" (Some "utf-8") true Cases.streaming
  = (Ret tt,
     log_all [EvIterProcessed; EvUiWrite (follow_notice "abc");
              EvProcFollow "abc123" None; EvUiWrite "epoch 1";
              EvUiWrite "epoch 2"] Cases.streaming).
Proof.
  apply (logs_follow_writes_stream Cases.streaming "abc" (Some "utf-8")
           {[ "abc" := Some Sample.entry_a ]}
           (log_all [EvIterProcessed] Cases.streaming) Sample.entry_a).
  - vm_compute. reflexivity.
  - reflexivity.
Defined.

(** [logs] without [follow], for an identifier that resolves against the
    active and done entries: when the process manager has no record of the
    resolved entry's revision the call fails with the no-output-logs error,
    which names the identifier as the caller gave it; otherwise the output
    file of the process is read and written out in one piece, and a file
    that cannot be opened leaves the call with that error.  The process is
    never followed. *)
Theorem logs_prints_output_file (w : World) (rev : string)
    (encoding : option string) (d : gmap string (option QueueEntry))
    (w1 : World) (queue_entry : QueueEntry) :
  match_queue_entry_by_name {[rev]} [iter_active; gen_map fst iter_done] w
  = (Ret d, w1) ->
  mjoin (d !! rev) = Some queue_entry ->
  logs rev encoding false w
  = match procs w1 !! stash_rev queue_entry with
    | None =>
        (Raise (DvcException
                  ("No output logs found for experiment '" ++ rev ++ "'")), w1)
    | Some path =>
        match files w1 !! path with
        | None => (Raise FileNotFoundError, w1)
        | Some text => (Ret tt, log_all [EvUiWrite text] w1)
        end
    end.
Proof.
  intros Hd Hq. unfold logs. unfold bind at 1. rewrite Hd, Hq.
  unfold bind at 1. unfold try_except, proc_stdout.
  destruct (procs w1 !! stash_rev queue_entry) as [path|]; [|done].
  unfold bind at 1. unfold read_file.
  destruct (files w1 !! path) as [text|]; done.
Qed.

Lemma logs_prints_output_file_witness :
  logs "abc" None false Cases.streaming
  = (Ret tt,
     log_all [EvIterProcessed; EvUiWrite "epoch 1 epoch 2"] Cases.streaming)
  /\ logs "abc" None false Cases.untracked
     = (Raise (DvcException "No output logs found for experiment 'abc'"),
        log_all [EvIterProcessed] Cases.untracked).
Proof.
  split.
  - apply (logs_prints_output_file Cases.streaming "abc" None
             {[ "abc" := Some Sample.entry_a ]}
             (log_all [EvIterProcessed] Cases.streaming) Sample.entry_a).
    + vm_compute. reflexivity.
    + reflexivity.
  - apply (logs_prints_output_file Cases.untracked "abc" None
             {[ "abc" := Some Sample.entry_a ]}
             (log_all [EvIterProcessed] Cases.untracked) Sample.entry_a).
    + vm_compute. reflexivity.
    + reflexivity.
Defined.

(** ** [put] *)

Lemma put_outcome stash_exp place task_id tag w entry w1 :
  stash_exp w = (Ret entry, w1) ->
  put stash_exp place task_id tag w
  = (Ret entry,
     set_queued (take place (queued w1)
                   ++ sent_message task_id tag entry :: drop place (queued w1))
                w1).
Proof.
  intros H. unfold put. unfold bind at 1. by rewrite H.
Qed.

Lemma collect_pure_sent task_id tag entry :
  collect_pure entry_of_message [sent_message task_id tag entry]
  = ([(sent_message task_id tag entry, entry)], None).
Proof. reflexivity. Qed.

Lemma collect_pure_prefix {A B} (f : A -> Res (option B)) (l1 l2 : list A) :
  (collect_pure f (l1 ++ l2)).2 = None -> (collect_pure f l1).2 = None.
Proof.
  induction l1 as [|a l1 IH]; simpl; [done|].
  destruct (f a) as [[b|]|e]; simpl; try done.
Qed.

(** Once the experiment is stashed, [put] returns the stashed entry, and
    the message it sends shows the entry in the queue: [iter_queued] yields
    the entries that were queued before, in their order, and the new one
    among them, at the place the broker gives its message, whatever the
    task id and the delivery tag; and as long as no info record reports
    the entry collected, [get_result] on it fails with the not-started
    error. *)
Theorem put_queues_the_entry (stash_exp : M QueueEntry) (place : nat)
    (task_id tag : string) (w : World) (entry : QueueEntry) (w1 : World)
    (timeout : option pyfloat) :
  stash_exp w = (Ret entry, w1) ->
  gen_error iter_queued w1 = None ->
  (put stash_exp place task_id tag w).1 = Ret entry
  /\ yielded iter_queued w1
     = yielded iter_queued (set_queued (take place (queued w1)) w1)
         ++ yielded iter_queued (set_queued (drop place (queued w1)) w1)
  /\ yielded iter_queued (put stash_exp place task_id tag w).2
     = yielded iter_queued (set_queued (take place (queued w1)) w1)
         ++ entry
         :: yielded iter_queued (set_queued (drop place (queued w1)) w1)
  /\ gen_error iter_queued (put stash_exp place task_id tag w).2 = None
  /\ (uncollected w1 (stash_rev entry) ->
      get_result entry timeout (put stash_exp place task_id tag w).2
      = (Raise (DvcException "Experiment has not been started."),
         log_all [EvLoadInfo (stash_rev entry); EvIterQueued]
                 (put stash_exp place task_id tag w).2)).
Proof.
  intros Hstash Herr. rewrite (put_outcome _ _ _ _ _ _ _ Hstash). cbn [fst snd].
  set (w2 := set_queued (take place (queued w1)
                           ++ sent_message task_id tag entry
                           :: drop place (queued w1)) w1).
  destruct (iter_queued_of_queue w1) as [Hy1 He1].
  destruct (iter_queued_of_queue w2) as [Hy2 He2].
  destruct (iter_queued_of_queue (set_queued (take place (queued w1)) w1))
    as [Hyt _].
  destruct (iter_queued_of_queue (set_queued (drop place (queued w1)) w1))
    as [Hyd _].
  cbn [queued set_queued] in Hyt, Hyd.
  rewrite He1 in Herr. rewrite <- (take_drop place (queued w1)) in Herr, Hy1.
  pose proof (collect_pure_prefix _ _ _ Herr) as Htake.
  rewrite collect_pure_app in Herr, Hy1 by done. cbn [fst snd] in Herr, Hy1.
  assert (Hc : collect_pure entry_of_message (queued w2)
               = ((collect_pure entry_of_message (take place (queued w1))).1
                    ++ (sent_message task_id tag entry, entry)
                    :: (collect_pure entry_of_message (drop place (queued w1))).1,
                  None)).
  { subst w2. cbn [queued set_queued].
    rewrite collect_pure_app by done.
    change (sent_message task_id tag entry :: drop place (queued w1))
      with ([sent_message task_id tag entry] ++ drop place (queued w1)).
    rewrite (collect_pure_app _ [_]) by done.
    rewrite collect_pure_sent. cbn [fst snd app]. by rewrite Herr. }
  rewrite Hc in Hy2, He2. cbn [fst snd] in Hy2, He2.
  assert (Hy : yielded iter_queued w2
               = yielded iter_queued (set_queued (take place (queued w1)) w1)
                   ++ entry
                   :: yielded iter_queued (set_queued (drop place (queued w1)) w1)).
  { rewrite Hy2, Hyt, Hyd. by rewrite fmap_app, fmap_cons. }
  split; [done|]. split; [by rewrite Hy1, Hyt, Hyd, fmap_app|].
  split; [done|]. split; [done|].
  intros Hun. rewrite get_result_uncollected by exact Hun.
  rewrite (scan_broker_not_started entry timeout [EvLoadInfo (stash_rev entry)] w2);
    [done|].
  rewrite Hy, fmap_app, fmap_cons. apply elem_of_app. right. by left.
Qed.

Lemma put_queues_the_entry_witness :
  yielded iter_queued
    (put (ret Sample.entry_b) 0 "task-4" "tag-4" Sample.world).2
  = [Sample.entry_b; Sample.entry_a]
  /\ get_result Sample.entry_b None
       (put (ret Sample.entry_b) 0 "task-4" "tag-4" Sample.world).2
     = (Raise (DvcException "Experiment has not been started."),
        log_all [EvLoadInfo "def456"; EvIterQueued]
                (put (ret Sample.entry_b) 0 "task-4" "tag-4" Sample.world).2).
Proof.
  destruct (put_queues_the_entry (ret Sample.entry_b) 0 "task-4" "tag-4"
              Sample.world Sample.entry_b Sample.world None)
    as (_ & _ & Hy & _ & Hget); [reflexivity|reflexivity|].
  split; [exact Hy|]. apply Hget.
  intros info Hinfo. vm_compute in Hinfo. discriminate.
Defined.
